(** * retail-proxy: the relay server [server.js]

    A shallow embedding of the Express relay in [src/server.js] and the
    properties of its payload translation: CDATA wrapping, the SOAP envelope
    of [POST /api/mie], the vendor-reply extraction, the credential
    resolution, the phone-number normalisation and the request validation of
    [POST /api/sms/send].

    Strings are lists of UTF-16 code units.  A handler is a function of the
    request and of the world it reads (environment, secrets file, clock)
    that either answers at once or makes its one outbound call and answers
    from the outcome of that call.  What the runtime supplies and the file
    cannot define in full is a parameter: the Unicode case mappings
    [toLowerCase] and [toUpperCase], and the RegExp constructor on the
    expression that [extractTagText] builds from a tag name.  The regular
    expression literals of the source are given as patterns of a small
    backtracking matcher.  An exception inside a handler is caught by the
    handler's [catch] and answered with 500; the messages of the TypeErrors
    are those of V8. *)

From Stdlib Require Import NArith Ascii String Lia.
From stdpp Require Import base list strings pretty gmap.
From Equations Require Import Equations.

Local Open Scope N_scope.
Local Open Scope list_scope.

(** * JavaScript strings

    A JavaScript string is a sequence of UTF-16 code units.  Every string
    operation the server uses ([replaceAll], [startsWith], [slice], [length],
    [replace] with a character class, the regular expressions) works on code
    units, so a string is modelled as the list of its code units. *)

Abbreviation char := N (only parsing).
Abbreviation jsstring := (list N) (only parsing).

(** The code units of an ASCII literal of the source. *)
Definition lit (s : string) : jsstring :=
  map N_of_ascii (list_ascii_of_string s).

Definition inspect {A} (a : A) : {b | a = b} := exist _ a eq_refl.

(** [s.startsWith(p)] *)
Fixpoint startsWith (p s : jsstring) : bool :=
  match p, s with
  | [], _ => true
  | _ :: _, [] => false
  | a :: p', b :: s' => (a =? b) && startsWith p' s'
  end.

(** [p] removed from the front of [s], when [s] starts with it. *)
Fixpoint stripPrefix (p s : jsstring) : option jsstring :=
  match p, s with
  | [], _ => Some s
  | _ :: _, [] => None
  | a :: p', b :: s' => if a =? b then stripPrefix p' s' else None
  end.

(** The text before and after the first occurrence of [pat] in [s]
    ([s.indexOf(pat)] with the two [slice]s around it). *)
Fixpoint splitFirst (pat s : jsstring) : option (jsstring * jsstring) :=
  match s with
  | [] => if startsWith pat [] then Some ([], []) else None
  | c :: t =>
      if startsWith pat s then Some ([], drop (length pat) s)
      else match splitFirst pat t with
           | Some (a, b) => Some (c :: a, b)
           | None => None
           end
  end.

(** [s.replaceAll(pat, rep)] for a string pattern and a replacement without
    [$] patterns: the occurrences are found from left to right and do not
    overlap; the empty pattern matches between all code units. *)
Equations? replaceAll (pat rep s : jsstring) : jsstring by wf (length s) lt :=
  replaceAll [] rep [] := rep;
  replaceAll [] rep (c :: t) := rep ++ c :: replaceAll [] rep t;
  replaceAll (p :: ps) rep [] := [];
  replaceAll (p :: ps) rep (c :: t) with startsWith (p :: ps) (c :: t) := {
    | true := rep ++ replaceAll (p :: ps) rep (drop (length ps) t);
    | false := c :: replaceAll (p :: ps) rep t }.
Proof. all: rewrite ?length_drop; simpl; lia. Qed.

(** * CDATA wrapping (server.js, [cdataWrap]) *)

Definition CDATA_OPEN : jsstring := Eval vm_compute in lit "<![CDATA[".
Definition CDATA_CLOSE : jsstring := Eval vm_compute in lit "]]>".
Definition CDATA_SPLIT : jsstring := Eval vm_compute in lit "]]]]><![CDATA[>".

(** [cdataWrap(value)]; the callers pass strings, so [String(value ?? '')]
    is [value] itself. *)
Definition cdataWrap (value : jsstring) : jsstring :=
  let s := value in
  let safe := replaceAll CDATA_CLOSE CDATA_SPLIT s in
  CDATA_OPEN ++ safe ++ CDATA_CLOSE.

Lemma stripPrefix_length p s body :
  stripPrefix p s = Some body -> (length body <= length s)%nat.
Proof.
  revert s body. induction p as [|a p IH]; intros s body; simpl.
  - intros [= <-]. lia.
  - destruct s as [|b s]; [congruence|].
    destruct (a =? b); [|congruence]. intros H. apply IH in H. simpl. lia.
Qed.

Lemma splitFirst_length a p s d rest :
  splitFirst (a :: p) s = Some (d, rest) -> (length rest < length s)%nat.
Proof.
  revert d rest. induction s as [|c t IH]; intros d rest.
  - simpl. congruence.
  - cbn [splitFirst]. destruct (startsWith (a :: p) (c :: t)).
    + intros [= <- <-]. rewrite length_drop. simpl. lia.
    + destruct (splitFirst (a :: p) t) as [[x y]|]; [|congruence].
      intros [= <- <-]. specialize (IH _ _ eq_refl). simpl. lia.
Qed.

#[local] Obligation Tactic := idtac.

(** The reader's side, as XML defines it: a run of adjacent CDATA sections.
    Each section opens with [<![CDATA[] and ends at the first [CDATA_CLOSE]
    after it; the character data of adjacent sections is concatenated.  The
    result is the character data and the text after the last section. *)
Equations cdataSections (s : jsstring) : option (jsstring * jsstring)
  by wf (length s) lt :=
  cdataSections s with inspect (stripPrefix CDATA_OPEN s) := {
    | exist _ None _ := None;
    | exist _ (Some body) Hbody with inspect (splitFirst CDATA_CLOSE body) := {
      | exist _ None _ := None;
      | exist _ (Some (d, rest)) Hsplit with inspect (startsWith CDATA_OPEN rest) := {
        | exist _ false _ := Some (d, rest);
        | exist _ true _ :=
            match cdataSections rest with
            | Some (d', r) => Some (d ++ d', r)
            | None => None
            end } } }.
Next Obligation.
  intros s body d rest _ Hsplit Hbody _. cbv beta in Hsplit, Hbody.
  apply stripPrefix_length in Hbody.
  apply splitFirst_length in Hsplit. lia.
Qed.

(** The text of a CDATA-section run that fills the whole input. *)
Definition cdataUnwrap (s : jsstring) : option jsstring :=
  match cdataSections s with
  | Some (d, []) => Some d
  | _ => None
  end.

Example cdataWrap_plain :
  cdataWrap (lit "a<b>") = lit "<![CDATA[a<b>]]>".
Proof. vm_compute. reflexivity. Qed.

Example cdataWrap_split :
  cdataWrap (lit "x]]>y") = lit "<![CDATA[x]]]]><![CDATA[>y]]>".
Proof. vm_compute. reflexivity. Qed.

Example cdataUnwrap_split :
  cdataUnwrap (lit "<![CDATA[x]]]]><![CDATA[>y]]>") = Some (lit "x]]>y").
Proof. vm_compute. reflexivity. Qed.


(** * Character classes *)

Definition inRange (lo hi c : char) : bool := (lo <=? c) && (c <=? hi).

(** [\d]: the ASCII digits. *)
Definition isDigit (c : char) : bool := inRange 48 57 c.

(** White space and line terminators of ECMAScript: what [\s] matches and
    what [trim] removes. *)
Definition isWhiteSpace (c : char) : bool :=
  inRange 9 13 c || (c =? 32) || (c =? 160) || (c =? 5760)
  || inRange 8192 8202 c || (c =? 8232) || (c =? 8233) || (c =? 8239)
  || (c =? 8287) || (c =? 12288) || (c =? 65279).

(** [[A-Za-z0-9_-]] *)
Definition isKeyChar (c : char) : bool :=
  inRange 65 90 c || inRange 97 122 c || inRange 48 57 c
  || (c =? 95) || (c =? 45).

(** [[A-Za-z0-9_]], the characters of an operation name; none of them is
    pattern syntax in a regular expression. *)
Definition isWordChar (c : char) : bool :=
  inRange 65 90 c || inRange 97 122 c || inRange 48 57 c || (c =? 95).

(** Canonicalisation of a code unit under the [i] flag (without [u]): the
    ASCII letters fold to upper case; a code unit outside ASCII never folds
    to an ASCII one, so against an ASCII pattern character it compares as
    itself. *)
Definition canon (c : char) : char :=
  if inRange 97 122 c then c - 32 else c.

Definition eqCI (a c : char) : bool := canon a =? canon c.

(** [s.trimStart()], [s.trimEnd()] and [s.trim()] *)
Fixpoint trimStart (s : jsstring) : jsstring :=
  match s with
  | [] => []
  | c :: t => if isWhiteSpace c then trimStart t else s
  end.

Definition trimEnd (s : jsstring) : jsstring := rev (trimStart (rev s)).

Definition trim (s : jsstring) : jsstring := trimEnd (trimStart s).

(** * Regular expressions

    The patterns of the server are sequences of single characters, character
    classes and starred or plussed classes, with one capture group.  The
    matcher is the backtracking matcher of ECMAScript restricted to that
    shape: a greedy quantifier tries the longer match first, a lazy one the
    shorter, and the first success in that order is the result. *)

Inductive atom :=
  | Chr (p : char -> bool)                  (* one code unit of a class *)
  | Star (greedy : bool) (p : char -> bool) (* [p*] or [p*?] *)
  | Plus (greedy : bool) (p : char -> bool) (* [p+] or [p+?] *).

(** A pattern: its atoms in order, each flagged when it lies inside the
    capture group. *)
Abbreviation pattern := (list (bool * atom)) (only parsing).

Definition orElse {A} (x y : option A) : option A :=
  match x with Some _ => x | None => y end.

(** The capture so far: [c] is added when the atom that consumed it is
    inside the group. *)
Definition keep (cap : bool) (c : char) (r : option jsstring)
  : option jsstring :=
  match r with
  | Some k => Some (if cap then c :: k else k)
  | None => None
  end.

(** A quantified class followed by the continuation [k]. *)
Fixpoint quantified (greedy cap : bool) (p : char -> bool)
    (k : jsstring -> option jsstring) (s : jsstring) : option jsstring :=
  let stop := k s in
  let more :=
    match s with
    | c :: t => if p c then keep cap c (quantified greedy cap p k t) else None
    | [] => None
    end in
  if greedy then orElse more stop else orElse stop more.

(** The capture of a whole run. *)
Definition keepAll (cap : bool) (run : jsstring) (r : option jsstring)
  : option jsstring :=
  match r with
  | Some k => Some (if cap then run ++ k else k)
  | None => None
  end.

(** The pattern matched at the start of [s]: the text of the capture group
    of the first successful alternative. *)
Fixpoint matchAt (pat : pattern) (s : jsstring) : option jsstring :=
  match pat with
  | [] => Some []
  | (cap, Chr p) :: pat' =>
      match s with
      | c :: t => if p c then keep cap c (matchAt pat' t) else None
      | [] => None
      end
  | (cap, Star g p) :: pat' => quantified g cap p (matchAt pat') s
  | (cap, Plus g p) :: pat' =>
      match s with
      | c :: t =>
          if p c then keep cap c (quantified g cap p (matchAt pat') t)
          else None
      | [] => None
      end
  end.

(** [s.match(re)[1]] for a pattern without the [g] flag: the match that
    starts leftmost. *)
Fixpoint search (pat : pattern) (s : jsstring) : option jsstring :=
  match matchAt pat s with
  | Some k => Some k
  | None =>
      match s with
      | [] => None
      | _ :: t => search pat t
      end
  end.

(** The literal text [s] of a pattern with the [i] flag. *)
Definition litCI (s : jsstring) : pattern :=
  map (fun a => (false, Chr (eqCI a))) s.

(** [s.replace(/[class]/g, rep)] *)
Definition replaceClass (p : char -> bool) (rep s : jsstring) : jsstring :=
  flat_map (fun c => if p c then rep else [c]) s.

Definition anyChar (c : char) : bool := true.
Definition isNot (a c : char) : bool := negb (a =? c).

(** * Reading the vendor reply (server.js, [extractTagText] and
    [extractRequestKey]) *)

(** The expression [<${tagName}[^>]*>([\s\S]*?)</${tagName}>] with the
    [i] flag, for a tag name made of word characters: the name is then
    literal text of the pattern. *)
Definition tagPattern (tagName : jsstring) : pattern :=
  litCI (lit "<" ++ tagName)
  ++ [(false, Star true (isNot 62))]
  ++ litCI (lit ">")
  ++ [(true, Star false anyChar)]
  ++ litCI (lit "</" ++ tagName ++ lit ">").

(** What a call gives back: a value, or an exception with its message. *)
Inductive completion (A : Type) :=
  | Returned (a : A)
  | Thrown (message : jsstring).
Arguments Returned {A} a.
Arguments Thrown {A} message.

(** [new RegExp(source, 'i')] for the source text that [extractTagText]
    builds from the tag name given as argument: a SyntaxError with its
    message, or the compiled expression, given by what [xml.match(re)] finds
    for its group.  For a tag name of word characters the compiled
    expression is [tagPattern]; other names may hold pattern syntax. *)
Abbreviation regexp_constructor :=
  (jsstring -> jsstring + (jsstring -> option jsstring)) (only parsing).

(** The constructor on tag names of word characters; used to run the
    handlers on sample requests. *)
Definition wordRegExp : regexp_constructor :=
  fun tagName => inr (search (tagPattern tagName)).

(** [.] of an expression without the [s] flag: any code unit but a line
    terminator. *)
Definition isLineTerminator (c : char) : bool :=
  (c =? 10) || (c =? 13) || (c =? 8232) || (c =? 8233).

Definition dot (c : char) : bool := negb (isLineTerminator c).

(** What a tag name of word characters and dots is as text of the
    expression: a word character stands for itself, a dot is the
    wildcard. *)
Definition nameAtoms (tagName : jsstring) : pattern :=
  map (fun a => (false, Chr (if a =? 46 then dot else eqCI a))) tagName.

Definition dottedPattern (tagName : jsstring) : pattern :=
  litCI (lit "<") ++ nameAtoms tagName
  ++ [(false, Star true (isNot 62))]
  ++ litCI (lit ">")
  ++ [(true, Star false anyChar)]
  ++ litCI (lit "</") ++ nameAtoms tagName ++ litCI (lit ">").

(** The constructor on tag names of word characters and dots. *)
Definition dottedRegExp : regexp_constructor :=
  fun tagName => inr (search (dottedPattern tagName)).

(** [extractTagText(xml, tagName)] *)
Definition extractTagText (newRegExp : regexp_constructor)
    (xml tagName : jsstring) : completion (option jsstring) :=
  match xml with
  | [] => Returned None
  | _ =>
      match newRegExp tagName with
      | inl message => Thrown message
      | inr re => Returned (re xml)
      end
  end.

(** [/<RequestKey>([^<]+)<\/RequestKey>/i] *)
Definition keyElement : pattern :=
  litCI (lit "<RequestKey>")
  ++ [(true, Plus true (isNot 60))]
  ++ litCI (lit "</RequestKey>").

(** [/RequestKey\s*=\s*Q([^Q]+)Q/i], where Q is the double quote (code
    unit 34). *)
Definition keyAttribute : pattern :=
  litCI (lit "RequestKey")
  ++ [(false, Star true isWhiteSpace)]
  ++ litCI (lit "=")
  ++ [(false, Star true isWhiteSpace)]
  ++ litCI [34]
  ++ [(true, Plus true (isNot 34))]
  ++ litCI [34].

(** [/RequestKey\s*:\s*([A-Za-z0-9_-]+)/i] *)
Definition keyColon : pattern :=
  litCI (lit "RequestKey")
  ++ [(false, Star true isWhiteSpace)]
  ++ litCI (lit ":")
  ++ [(false, Star true isWhiteSpace)]
  ++ [(true, Plus true isKeyChar)].

Definition patterns : list pattern := [keyElement; keyAttribute; keyColon].

(** The [for] loop over [patterns]: the first pattern with a match decides. *)
Fixpoint firstMatch (ps : list pattern) (text : jsstring) : option jsstring :=
  match ps with
  | [] => None
  | re :: ps' =>
      match search re text with
      | Some (c :: k) => Some (trim (c :: k))
      | _ => firstMatch ps' text
      end
  end.

Definition extractRequestKey (text : option jsstring) : option jsstring :=
  match text with
  | None | Some [] => None
  | Some t => firstMatch patterns t
  end.

Example extract_element :
  extractTagText wordRegExp
    (lit "<r><FooResult>...<RequestKey>ABC123</RequestKey>...</FooResult></r>")
    (lit "FooResult")
  = Returned (Some (lit "...<RequestKey>ABC123</RequestKey>..."))
  /\ extractRequestKey (Some (lit "...<RequestKey>ABC123</RequestKey>..."))
     = Some (lit "ABC123").
Proof. split; vm_compute; reflexivity. Qed.

Example extract_attribute :
  extractRequestKey (Some (lit "<Req RequestKey = " ++ 34 :: lit "XYZ" ++ 34 :: lit " />"))
  = Some (lit "XYZ").
Proof. vm_compute. reflexivity. Qed.

Example extract_colon :
  extractRequestKey (Some (lit "requestkey:  ab-1_2 tail")) = Some (lit "ab-1_2").
Proof. vm_compute. reflexivity. Qed.

Example extract_tag_attrs :
  extractTagText wordRegExp (lit "<a><fooresult x='1'>in
ner</FOORESULT></a>") (lit "FooResult")
  = Returned (Some (lit "in
ner")).
Proof. vm_compute. reflexivity. Qed.

(** * Requests, responses and the world around a handler

    Request bodies are modelled at the types the interface documents: a
    field is a string or absent ([undefined]); [payload] and [options] are
    records, absent or [null]; a check type is a string, [null] or another
    JSON value; and [recipients] is an array of recipients, another value or
    absent. *)

(** A JSON value of a response body. *)
Inductive json :=
  | JNull
  | JBool (b : bool)
  | JString (s : jsstring).

Inductive body :=
  | Json (fields : gmap string json)   (* [res.json({...})] *)
  | JsonText (data : jsstring)         (* [res.json(data)], by the JSON text of [data] *)
  | Text (text : jsstring)             (* [res.send(text)] *).

Record response := Response { status : N; content : body }.

(** What a handler reads besides the request: [process.env], the result of
    [loadLocalSecrets()] ([None] is [null]: no file, or not an object) and
    the clock ([Date.now()] and [new Date().toISOString()]). *)
Record world := World {
  env : gmap string jsstring;
  localSecrets : option (gmap string jsstring);
  dateNow : N;
  isoNow : jsstring }.

(** The outcome of the one outbound [fetch] of a handler: it throws (the
    handler's [catch] gets the error, here its message) or it returns the
    vendor's status and body text. *)
Inductive fetch_result :=
  | FetchFailed (message : jsstring)
  | FetchResponse (code : N) (text : jsstring).

(** [resp.ok] *)
Definition ok_status (code : N) : bool := (200 <=? code) && (code <=? 299).

(** A handler either answers at once or makes its outbound call [o] and
    answers from the call's outcome. *)
Inductive outcome (O R : Type) :=
  | Respond (r : response)
  | Call (o : O) (k : R -> response).
Arguments Respond {O R} r.
Arguments Call {O R} o k.

(** A field of a request body or of a secrets file, read as a string:
    [None] is [undefined]. *)
Definition truthy (v : option jsstring) : bool :=
  match v with
  | Some (_ :: _) => true
  | _ => false
  end.

(** [a || b] *)
Definition jsOr (a b : option jsstring) : option jsstring :=
  if truthy a then a else b.

(** [a ?? d] *)
Definition nullish (a : option jsstring) (d : jsstring) : jsstring :=
  match a with
  | Some s => s
  | None => d
  end.

(** [secrets?.KEY] *)
Definition secret (w : world) (key : string) : option jsstring :=
  match localSecrets w with
  | Some m => m !! key
  | None => None
  end.

(** The decimal digits of a number in a template literal. *)
Definition decimal (n : N) : jsstring := lit (pretty n).

(** * POST /api/mie *)

(** An element of [payload.checkTypes]: a string, [null], or another JSON
    value (a number, a boolean, an array, an object). *)
Inductive check_type :=
  | CheckName (t : jsstring)
  | CheckNull
  | CheckOther.

(** [payload] of the request body, at the types the interface documents:
    strings, a list of check types ([None] when not an array) and the
    truthiness of the indemnity flag. *)
Record mie_payload := MiePayload {
  checkTypes : option (list check_type);
  remoteKey : option jsstring;
  firstName : option jsstring;
  lastName : option jsstring;
  idNumber : option jsstring;
  dateOfBirth : option jsstring;
  phone : option jsstring;
  email : option jsstring;
  payloadSource : option jsstring;
  indemnityAcknowledged : bool }.

Definition emptyPayload : mie_payload :=
  MiePayload None None None None None None None None None false.

(** The [payload] field of the request body: absent (the default [{}]
    takes its place), [null] (the default does not replace it), or a value
    with its fields (a value that is not an object has none). *)
Inductive payload_field :=
  | PayloadAbsent
  | PayloadNull
  | Payload (pl : mie_payload).

Record mie_request := MieRequest {
  method : option jsstring;
  soapUrl : option jsstring;
  username : option jsstring;
  passwordFromBody : option jsstring;
  clientKey : option jsstring;
  agentKey : option jsstring;
  source : option jsstring;
  payload : payload_field;
  aLogonXmlOverride : option jsstring;
  aArgumentOverride : option jsstring }.

Record mie_outbound := MieOutbound {
  fetchUrl : jsstring;
  fetchMethod : jsstring;
  fetchHeaders : list (string * jsstring);
  fetchBody : jsstring }.

Definition json_error (code : N) (fields : gmap string json) : response :=
  Response code (Json fields).

Section Server.

(** [String.prototype.toLowerCase] and [toUpperCase] follow the Unicode case
    mappings of the runtime; the handlers are defined for any such pair. *)
Variable toLowerCase toUpperCase : jsstring -> jsstring.

(** The RegExp constructor of the runtime, on the source text that
    [extractTagText] passes to it. *)
Variable newRegExp : regexp_constructor.

(** [passwordFromBody || process.env.MIE_PASSWORD || secrets?.MIE_PASSWORD
    || secrets?.mie_password || null] *)
Definition resolvePassword (w : world) (passwordFromBody : option jsstring)
  : option jsstring :=
  let p := jsOr (jsOr (jsOr passwordFromBody (env w !! "MIE_PASSWORD"))
                            (secret w "MIE_PASSWORD"))
                   (secret w "mie_password") in
  if truthy p then p else None.

Definition aLogonXml (req : mie_request) (password : jsstring) : jsstring :=
  match jsOr (aLogonXmlOverride req) None with
  | Some override => override
  | None =>
      lit "<xml><Token>" ++
      lit "<UserName>" ++ nullish (username req) [] ++ lit "</UserName>" ++
      lit "<Password>" ++ password ++ lit "</Password>" ++
      lit "<Source>" ++ nullish (source req) [] ++ lit "</Source>" ++
      lit "</Token></xml>"
  end.

(** The TypeErrors of [payload.checkTypes] on a [null] payload and of
    [t.toUpperCase()] on a check type that is [null] or not a string. *)
Definition NULL_PAYLOAD : jsstring :=
  lit "Cannot read properties of null (reading 'checkTypes')".

Definition NULL_CHECK_TYPE : jsstring :=
  lit "Cannot read properties of null (reading 'toUpperCase')".

Definition NOT_A_STRING : jsstring := lit "t.toUpperCase is not a function".

Definition itemXml (pl : mie_payload) (t : check_type) : completion jsstring :=
  match t with
  | CheckName t =>
      Returned
        (lit "<Item>" ++
         lit "<RemoteItemKey></RemoteItemKey>" ++
         lit "<ItemTypeCode>" ++ toUpperCase t ++ lit "</ItemTypeCode>" ++
         lit "<Indemnity>" ++
           (if indemnityAcknowledged pl then lit "true" else lit "false") ++
           lit "</Indemnity>" ++
         lit "<ItemInputGroupList></ItemInputGroupList>" ++
         lit "</Item>")
  | CheckNull => Thrown NULL_CHECK_TYPE
  | CheckOther => Thrown NOT_A_STRING
  end.

(** [checkTypes.map(t => ...).join('')]: the first check type that is not a
    string ends it with its TypeError. *)
Fixpoint itemList (pl : mie_payload) (l : list check_type)
  : completion jsstring :=
  match l with
  | [] => Returned []
  | t :: rest =>
      match itemXml pl t with
      | Thrown message => Thrown message
      | Returned item =>
          match itemList pl rest with
          | Thrown message => Thrown message
          | Returned items => Returned (item ++ items)
          end
      end
  end.

(** The request fragment; it is built for every method, on the allow-list
    or not.  A [null] payload throws where its [checkTypes] is read; with an
    override the item list is not evaluated. *)
Definition aArgument (w : world) (req : mie_request) : completion jsstring :=
  match payload req with
  | PayloadNull => Thrown NULL_PAYLOAD
  | field =>
  let pl := match field with Payload pl => pl | _ => emptyPayload end in
  let checkTypes := match checkTypes pl with Some l => l | None => [] end in
  let remoteKey :=
    match jsOr (remoteKey pl) None with
    | Some k => k
    | None => lit "RS_" ++ decimal (dateNow w)
    end in
  let currentDate := isoNow w in
  match jsOr (aArgumentOverride req) None with
  | Some override => Returned override
  | None =>
      match itemList pl checkTypes with
      | Thrown message => Thrown message
      | Returned items =>
      Returned (
      lit "<xml><Request>" ++
      lit "<ClientKey>" ++ nullish (clientKey req) [] ++ lit "</ClientKey>" ++
      lit "<AgentClient>" ++ nullish (clientKey req) [] ++ lit "</AgentClient>" ++
      lit "<AgentKey>" ++ nullish (agentKey req) [] ++ lit "</AgentKey>" ++
      lit "<RemoteRequest>" ++ remoteKey ++ lit "</RemoteRequest>" ++
      lit "<OrderNumber></OrderNumber>" ++
      lit "<RequestReason></RequestReason>" ++
      lit "<Note></Note>" ++
      lit "<FirstNames>" ++ nullish (firstName pl) [] ++ lit "</FirstNames>" ++
      lit "<Surname>" ++ nullish (lastName pl) [] ++ lit "</Surname>" ++
      lit "<MaidenName></MaidenName>" ++
      lit "<IdNumber>" ++ nullish (idNumber pl) [] ++ lit "</IdNumber>" ++
      lit "<Passport></Passport>" ++
      (match jsOr (dateOfBirth pl) None with
       | Some d => lit "<DateOfBirth>" ++ d ++ lit "</DateOfBirth>"
       | None => lit "<DateOfBirth></DateOfBirth>"
       end) ++
      lit "<ContactNumber>" ++ nullish (phone pl) [] ++ lit "</ContactNumber>" ++
      lit "<PersonEmail>" ++ nullish (email pl) [] ++ lit "</PersonEmail>" ++
      lit "<AlternateEmail></AlternateEmail>" ++
      lit "<Source>" ++
        nullish (payloadSource pl) (nullish (source req) []) ++
        lit "</Source>" ++
      lit "<EntityKind>P</EntityKind>" ++
      lit "<RemoteCaptureDate>" ++ currentDate ++ lit "</RemoteCaptureDate>" ++
      lit "<RemoteSendDate>" ++ currentDate ++ lit "</RemoteSendDate>" ++
      lit "<RemoteGroup></RemoteGroup>" ++
      lit "<PrerequisiteGroupList></PrerequisiteGroupList>" ++
      lit "<PrerequisiteImageList></PrerequisiteImageList>" ++
      lit "<ItemList>" ++
      items ++
      lit "</ItemList>" ++
      lit "</Request></xml>")
      end
  end
  end.

Definition allowList : list jsstring :=
  [lit "ksoputrequest"; lit "ksoputbranch"; lit "ksoputrequestredirect"].

(** [allowList.includes(String(method).toLowerCase())] *)
Definition hasArgument (method : jsstring) : bool :=
  existsb (fun name => bool_decide (name = toLowerCase method)) allowList.

Definition ENVELOPE_HEAD : jsstring :=
  lit "<?xml version=" ++ 34 :: lit "1.0" ++ 34 :: lit " encoding=" ++
  34 :: lit "utf-8" ++ 34 :: lit "?>" ++ 10 ::
  lit "<soap:Envelope xmlns:xsi=" ++
  34 :: lit "http://www.w3.org/2001/XMLSchema-instance" ++ 34 ::
  lit " xmlns:xsd=" ++ 34 :: lit "http://www.w3.org/2001/XMLSchema" ++ 34 ::
  lit " xmlns:soap=" ++
  34 :: lit "http://schemas.xmlsoap.org/soap/envelope/" ++ 34 :: lit ">" ++
  lit "<soap:Body>".

Definition methodOpen (method : jsstring) : jsstring :=
  lit "<" ++ method ++ lit " xmlns=" ++
  34 :: lit "http://www.kroll.co.za/" ++ 34 :: lit ">".

Definition ENVELOPE_TAIL : jsstring := lit "</soap:Body></soap:Envelope>".

Definition soapEnvelope (method aLogonXml aArgument : jsstring) : jsstring :=
  ENVELOPE_HEAD ++
  methodOpen method ++
  lit "<aLogonXml>" ++ cdataWrap aLogonXml ++ lit "</aLogonXml>" ++
  (if hasArgument method
   then lit "<aArgument>" ++ cdataWrap aArgument ++ lit "</aArgument>"
   else []) ++
  lit "</" ++ method ++ lit ">" ++
  ENVELOPE_TAIL.

Definition soapAction (method : jsstring) : jsstring :=
  lit "http://www.kroll.co.za/" ++ method.

Definition orNull (v : option jsstring) : json :=
  match jsOr v None with
  | Some s => JString s
  | None => JNull
  end.

(** The handler after [await fetch(...)] and [await resp.text()]; an
    exception (a failed call, a SyntaxError of the RegExp constructor) is
    caught and answered with 500 and [err.message]. *)
Definition mieReply (method soapUrl : jsstring) (r : fetch_result) : response :=
  match r with
  | FetchFailed message =>
      json_error 500 (<["ok" := JBool false]> (<["error" := JString message]> ∅))
  | FetchResponse code respText =>
      if negb (ok_status code) then
        json_error 502
          (<["ok" := JBool false]>
           (<["error" := JString (lit "MIE SOAP HTTP " ++ decimal code)]>
           (<["soapAction" := JString (soapAction method)]>
           (<["soapUrl" := JString soapUrl]>
           (<["responseSnippet" := JString (take 2000 respText)]> ∅)))))
      else
        let resultTag := method ++ lit "Result" in
        match extractTagText newRegExp respText resultTag with
        | Thrown message =>
            json_error 500
              (<["ok" := JBool false]> (<["error" := JString message]> ∅))
        | Returned resultText =>
            let requestKey := extractRequestKey resultText in
            json_error 200
              (<["ok" := JBool true]>
               (<["method" := JString method]>
               (<["soapAction" := JString (soapAction method)]>
               (<["requestKey" := orNull requestKey]>
               (<["reference" := orNull requestKey]>
               (<["result" := orNull resultText]>
               (<["rawSoapResponse" := JString respText]> ∅)))))))
        end
  end.

Definition MISSING_PASSWORD_HINT : jsstring :=
  lit "Set MIE_PASSWORD as an environment variable OR add secrets.local.json with { " ++
  34 :: lit "MIE_PASSWORD" ++ 34 :: lit ": " ++ 34 :: lit "..." ++ 34 :: lit " }".

(** [app.post('/api/mie', ...)] *)
Definition mieHandler (w : world) (req : mie_request)
  : outcome mie_outbound fetch_result :=
  match jsOr (method req) None with
  | None =>
      Respond (json_error 400
        (<["ok" := JBool false]> (<["error" := JString (lit "Missing method")]> ∅)))
  | Some method =>
  match jsOr (soapUrl req) None with
  | None =>
      Respond (json_error 400
        (<["ok" := JBool false]> (<["error" := JString (lit "Missing soapUrl")]> ∅)))
  | Some soapUrl =>
  match resolvePassword w (passwordFromBody req) with
  | None =>
      Respond (json_error 400
        (<["ok" := JBool false]>
         (<["error" := JString (lit "Missing MIE password")]>
         (<["hint" := JString MISSING_PASSWORD_HINT]> ∅))))
  | Some password =>
  match aArgument w req with
  | Thrown message =>
      Respond (json_error 500
        (<["ok" := JBool false]> (<["error" := JString message]> ∅)))
  | Returned argument =>
      Call
        (MieOutbound soapUrl (lit "POST")
           [("Content-Type", lit "text/xml; charset=utf-8");
            ("SOAPAction", soapAction method);
            ("Accept", lit "text/xml")]
           (soapEnvelope method (aLogonXml req password) argument))
        (mieReply method soapUrl)
  end end end end.

End Server.

(** * The SMS gateway *)

(** [getSmsCredentials()] *)
Definition getSmsCredentials (w : world) : option jsstring * option jsstring :=
  let pick a b c :=
    let v := jsOr (jsOr (env w !! a) (secret w b)) (secret w c) in
    if truthy v then v else None in
  (pick "SMS_CLIENT_ID" "SMS_CLIENT_ID" "sms_client_id",
   pick "SMS_CLIENT_SECRET" "SMS_CLIENT_SECRET" "sms_client_secret").

(** [formatSmsPortalNumber(phone)], for a phone given as a string or absent. *)
Definition formatSmsPortalNumber (phone : option jsstring) : jsstring :=
  match jsOr phone None with
  | None => []
  | Some phone =>
      let cleaned := replaceClass (fun c => negb (isDigit c)) [] phone in
      match cleaned with
      | [] => []
      | _ =>
          if startsWith (lit "27") cleaned then cleaned
          else if startsWith (lit "0") cleaned then lit "27" ++ drop 1 cleaned
          else if (length cleaned =? 9)%nat then lit "27" ++ cleaned
          else cleaned
      end
  end.

(** A recipient of [POST /api/sms/send]: a raw string, a record with the
    phone-bearing fields, or [null]. *)
Inductive recipient :=
  | RawNumber (raw : jsstring)
  | Contact (cellphone_number phone contact_number mobile : option jsstring)
  | NoRecipient.

(** [recipients] of the request body, as far as the handler looks at it. *)
Inductive recipients_field :=
  | RecipientsMissing
  | RecipientsNotArray
  | Recipients (l : list recipient).

Record sms_options := SmsOptions {
  scheduledFor : option jsstring;
  reference : option jsstring;
  testMode : bool;
  senderId : option jsstring }.

Definition noOptions : sms_options := SmsOptions None None false None.

(** The [options] field of the request body: absent (the default [{}]
    takes its place), [null] (the default does not replace it), or a value
    with its fields (a value that is not an object has none). *)
Inductive options_field :=
  | OptionsAbsent
  | OptionsNull
  | Options (o : sms_options).

Record sms_request := SmsRequest {
  message : option jsstring;
  recipients : recipients_field;
  options : options_field }.

Record sms_message := SmsMessage {
  smsContent : jsstring;
  destination : jsstring;
  sendTime : option jsstring;
  smsReference : option jsstring }.

(** The bulk-send payload; it is the JSON body of the outbound request. *)
Record sms_payload := SmsPayload {
  messages : list sms_message;
  payloadTestMode : bool;
  payloadSenderId : option jsstring }.

(** The outbound request of [forwardSms]: the vendor URL, the HTTP method,
    the client id and secret of the Basic authorisation header and the
    payload sent as JSON. *)
Record sms_outbound := SmsOutbound {
  smsUrl : jsstring;
  smsMethod : jsstring;
  basicAuth : jsstring * jsstring;
  smsBody : sms_payload }.

(** [(r && typeof r === 'object') ? (r.cellphone_number || r.phone ||
    r.contact_number || r.mobile) : r] *)
Definition rawNumber (r : recipient) : option jsstring :=
  match r with
  | RawNumber raw => Some raw
  | Contact c p n m => jsOr (jsOr (jsOr c p) n) m
  | NoRecipient => None
  end.

Definition smsMessageFor (message : jsstring) (o : sms_options) (r : recipient)
  : sms_message :=
  let raw := rawNumber r in
  let destination := formatSmsPortalNumber raw in
  SmsMessage (trim message) destination
    (jsOr (scheduledFor o) None) (jsOr (reference o) None).

(** An error as the [catch] of [forwardSms] reads it: the text of
    [err?.message || String(err)] and [err?.stack]. *)
Record js_error := JsError {
  errorMessage : jsstring;
  errorStack : option jsstring }.

(** The outcome of the outbound [fetch] of [forwardSms] as far as the relay
    reads it: the call throws, or it returns the vendor's status, the
    [content-type] header ([None] when there is none), what
    [response.json()] gives for the body (the parsed data, by its JSON
    text, or the error it throws on a body that is not JSON) and what
    [response.text()] gives. *)
Inductive sms_fetch_result :=
  | SmsFetchFailed (err : js_error)
  | SmsFetchResponse (code : N) (contentType : option jsstring)
      (parsed : js_error + jsstring) (text : jsstring).

(** [res.status(500).json({ ok: false, error, stack })]; a [stack] that is
    [undefined] leaves no field. *)
Definition smsFailure (err : js_error) : response :=
  json_error 500
    (<["ok" := JBool false]>
     (<["error" := JString (errorMessage err)]>
      (match errorStack err with
       | Some stack => <["stack" := JString stack]> ∅
       | None => ∅
       end))).

(** [needle] occurs in [hay]. *)
Definition mentions (needle hay : jsstring) : bool :=
  match splitFirst needle hay with Some _ => true | None => false end.

(** The relay of the vendor's answer by [forwardSms]: a reply whose content
    type mentions [application/json] is parsed and sent on as JSON under the
    vendor's status, any other reply is sent on as text; a failed call and a
    body that does not parse give 500. *)
Definition smsReply (r : sms_fetch_result) : response :=
  match r with
  | SmsFetchFailed err => smsFailure err
  | SmsFetchResponse code contentType parsed text =>
      if match contentType with
         | Some ct => mentions (lit "application/json") ct
         | None => false
         end
      then
        match parsed with
        | inl err => smsFailure err
        | inr data => Response code (JsonText data)
        end
      else Response code (Text text)
  end.

(** [forwardSms(req, res, smsPathOverride)] for the body [payload] of a
    [POST]. *)
Definition forwardSms (w : world) (payload : sms_payload) (smsPath : jsstring)
  : outcome sms_outbound sms_fetch_result :=
  match getSmsCredentials w with
  | (Some clientId, Some clientSecret) =>
      Call (SmsOutbound (lit "https://rest.smsportal.com" ++ smsPath)
              (lit "POST") (clientId, clientSecret) payload)
           smsReply
  | _ =>
      Respond (json_error 400
        (<["ok" := JBool false]>
         (<["error" := JString (lit "Missing SMS credentials")]>
         (<["hint" := JString (lit "Set SMS_CLIENT_ID and SMS_CLIENT_SECRET as Render environment variables (or secrets.local.json for local dev).")]> ∅))))
  end.

(** The TypeError of [options.scheduledFor] on [null] options. *)
Definition NULL_OPTIONS : jsstring :=
  lit "Cannot read properties of null (reading 'scheduledFor')".

(** [app.post('/api/sms/send', ...)]; [null] options throw in the callback
    of [recipients.map], at the first recipient. *)
Definition smsSendHandler (w : world) (req : sms_request)
  : outcome sms_outbound sms_fetch_result :=
  match jsOr (message req) None with
  | None =>
      Respond (json_error 400
        (<["success" := JBool false]>
         (<["error" := JString (lit "Message cannot be empty")]> ∅)))
  | Some message =>
  match trim message with
  | [] =>
      Respond (json_error 400
        (<["success" := JBool false]>
         (<["error" := JString (lit "Message cannot be empty")]> ∅)))
  | _ =>
  match recipients req with
  | RecipientsMissing | RecipientsNotArray | Recipients [] =>
      Respond (json_error 400
        (<["success" := JBool false]>
         (<["error" := JString (lit "No recipients specified")]> ∅)))
  | Recipients recipients =>
  match options req with
  | OptionsNull =>
      Respond (json_error 500
        (<["success" := JBool false]>
         (<["error" := JString NULL_OPTIONS]>
         (<["type" := JString (lit "proxy_error")]> ∅))))
  | field =>
      let options := match field with Options o => o | _ => noOptions end in
      let messages :=
        filter (fun m => destination m <> [])
               (map (smsMessageFor message options) recipients) in
      match messages with
      | [] =>
          Respond (json_error 400
            (<["success" := JBool false]>
             (<["error" := JString (lit "No valid recipient numbers found")]> ∅)))
      | _ =>
          let payload :=
            SmsPayload messages (testMode options)
              (jsOr (senderId options) None) in
          forwardSms w payload (lit "/BulkMessages")
      end
  end end end end.

Example format_local :
  formatSmsPortalNumber (Some (lit "082 123-4567")) = lit "27821234567".
Proof. vm_compute. reflexivity. Qed.

Example format_international :
  formatSmsPortalNumber (Some (lit "+27 82 123 4567")) = lit "27821234567".
Proof. vm_compute. reflexivity. Qed.

Example format_nine_digits :
  formatSmsPortalNumber (Some (lit "821234567")) = lit "27821234567".
Proof. vm_compute. reflexivity. Qed.

(** * The reader's side of the SOAP envelope

    What the vendor's XML parser sees of an envelope whose operation element
    is [method]: the character data of the [aLogonXml] element and, when an
    [aArgument] element follows it, the character data of that element. *)

(** An element [<name>] whose content is a run of CDATA sections, at the
    front of [s]: its character data and the text after its end tag. *)
Definition cdataElement (name s : jsstring) : option (jsstring * jsstring) :=
  match stripPrefix (lit "<" ++ name ++ lit ">") s with
  | None => None
  | Some content =>
      match cdataSections content with
      | None => None
      | Some (d, rest) =>
          match stripPrefix (lit "</" ++ name ++ lit ">") rest with
          | None => None
          | Some rest' => Some (d, rest')
          end
      end
  end.

Definition readEnvelope (method envelope : jsstring)
  : option (jsstring * option jsstring) :=
  let closing := lit "</" ++ method ++ lit ">" ++ ENVELOPE_TAIL in
  match stripPrefix (ENVELOPE_HEAD ++ methodOpen method) envelope with
  | None => None
  | Some inner =>
      match cdataElement (lit "aLogonXml") inner with
      | None => None
      | Some (logon, rest) =>
          match cdataElement (lit "aArgument") rest with
          | Some (argument, rest') =>
              if bool_decide (rest' = closing)
              then Some (logon, Some argument) else None
          | None =>
              if bool_decide (rest = closing) then Some (logon, None) else None
          end
      end
  end.

(** The case mappings on ASCII text, where they change the letters only;
    used to run the handlers on concrete requests. *)
Definition asciiLower (s : jsstring) : jsstring :=
  map (fun c => if inRange 65 90 c then c + 32 else c) s.

Definition asciiUpper (s : jsstring) : jsstring := map canon s.

Example envelope_with_argument :
  readEnvelope (lit "ksoPutRequest")
    (soapEnvelope asciiLower (lit "ksoPutRequest") (lit "<a>]]></a>") (lit "<r/>"))
  = Some (lit "<a>]]></a>", Some (lit "<r/>")).
Proof. vm_compute. reflexivity. Qed.

Example envelope_without_argument :
  readEnvelope (lit "ksoGetStatus")
    (soapEnvelope asciiLower (lit "ksoGetStatus") (lit "<a>]]></a>") (lit "<r/>"))
  = Some (lit "<a>]]></a>", None).
Proof. vm_compute. reflexivity. Qed.

(** * Sample inputs *)

Definition sampleWorld : world :=
  World ∅ None 1700000000000 (lit "2023-11-14T22:13:20.000Z").

(** The world of a deployment that sets the user name and the password in
    the environment. *)
Definition deployedWorld : world :=
  World (<["MIE_USERNAME" := lit "alice"]> (<["MIE_PASSWORD" := lit "s3cret"]> ∅))
        None 1700000000000 (lit "2023-11-14T22:13:20.000Z").

Definition samplePayload : mie_payload :=
  MiePayload (Some [CheckName (lit "credit"); CheckName (lit "id")])
    (Some (lit "RK1"))
    (Some (lit "Thandi")) (Some (lit "Nkosi")) (Some (lit "8001015009087"))
    None (Some (lit "0821234567")) (Some (lit "t@example.org")) None true.

Definition sampleRequest (method : string) : mie_request :=
  MieRequest (Some (lit method)) (Some (lit "https://vendor.example/soap"))
    (Some (lit "bob")) (Some (lit "pw")) (Some (lit "CK")) (Some (lit "AK"))
    (Some (lit "web")) (Payload samplePayload) None None.

(** A request that leaves the user name and the password to the server. *)
Definition bareRequest : mie_request :=
  MieRequest (Some (lit "ksoGetStatus")) (Some (lit "https://vendor.example/soap"))
    None None None None None PayloadAbsent None None.

(** Two requests for a method off the allow-list that differ in every
    identity field, at different times. *)
Definition otherRequest : mie_request :=
  MieRequest (Some (lit "ksoGetStatus"))
    (Some (lit "https://vendor.example/soap"))
    (Some (lit "bob")) (Some (lit "pw")) None None (Some (lit "web"))
    PayloadAbsent None (Some (lit "<other/>")).

(** The bare request with a [null] payload. *)
Definition nullPayloadRequest : mie_request :=
  MieRequest (Some (lit "ksoGetStatus")) (Some (lit "https://vendor.example/soap"))
    None None None None None PayloadNull None None.

Definition smsWorld : world :=
  World (<["SMS_CLIENT_ID" := lit "id"]> (<["SMS_CLIENT_SECRET" := lit "key"]> ∅))
        None 1700000000000 (lit "2023-11-14T22:13:20.000Z").

Definition sampleSms : sms_request :=
  SmsRequest (Some (lit "hi"))
    (Recipients [Contact None (Some (lit "0821234567")) None None])
    OptionsAbsent.


(** * The extraction, as the specification words it

    Stage one: the inner text of the first [<tag ...>...</tag>], the tag
    compared without regard to case, the attributes running to the first
    [>], the inner text running to the first end tag.  Stage two: the
    request key in one of three surface forms, tried in this order: element,
    attribute, colon. *)

Fixpoint takeWhile (p : char -> bool) (s : jsstring) : jsstring :=
  match s with
  | c :: t => if p c then c :: takeWhile p t else []
  | [] => []
  end.

Fixpoint dropWhile (p : char -> bool) (s : jsstring) : jsstring :=
  match s with
  | c :: t => if p c then dropWhile p t else s
  | [] => []
  end.

(** [p] removed from the front of [s] when [s] starts with it, letters
    compared without regard to case. *)
Fixpoint stripPrefixCI (p s : jsstring) : option jsstring :=
  match p, s with
  | [], _ => Some s
  | _ :: _, [] => None
  | a :: p', c :: s' => if eqCI a c then stripPrefixCI p' s' else None
  end.

(** The text before the first occurrence of [pat] in [s], without regard to
    case. *)
Fixpoint beforeFirstCI (pat s : jsstring) : option jsstring :=
  match stripPrefixCI pat s with
  | Some _ => Some []
  | None =>
      match s with
      | [] => None
      | c :: t =>
          match beforeFirstCI pat t with
          | Some a => Some (c :: a)
          | None => None
          end
      end
  end.

(** The text after the first occurrence of the code unit [ch]. *)
Fixpoint afterFirst (ch : char) (s : jsstring) : option jsstring :=
  match s with
  | [] => None
  | c :: t => if ch =? c then Some t else afterFirst ch t
  end.

(** The leftmost position of [s] at which the form [f] is present. *)
Fixpoint firstAt (f : jsstring -> option jsstring) (s : jsstring)
  : option jsstring :=
  match f s with
  | Some v => Some v
  | None =>
      match s with
      | [] => None
      | _ :: t => firstAt f t
      end
  end.

(** [<tag ...>inner</tag>] at the front of [s]. *)
Definition tagAt (tag s : jsstring) : option jsstring :=
  afterName ← stripPrefixCI (lit "<" ++ tag) s;
  content ← afterFirst 62 afterName;
  beforeFirstCI (lit "</" ++ tag ++ lit ">") content.

Definition tagTextSpec (xml tag : jsstring) : option jsstring :=
  firstAt (tagAt tag) xml.

Definition nonEmpty (s : jsstring) : bool :=
  match s with [] => false | _ => true end.

(** [<RequestKey>value</RequestKey>] at the front of [s]: the value is the
    non-empty text up to the next [<]. *)
Definition elementAt (s : jsstring) : option jsstring :=
  afterOpen ← stripPrefixCI (lit "<RequestKey>") s;
  let value := takeWhile (isNot 60) afterOpen in
  _ ← stripPrefixCI (lit "</RequestKey>") (dropWhile (isNot 60) afterOpen);
  if nonEmpty value then Some value else None.

(** [RequestKey = Qvalue Q] at the front of [s], with optional white space
    around the equals sign and Q the double quote: the value is the
    non-empty text up to the next double quote. *)
Definition attributeAt (s : jsstring) : option jsstring :=
  afterName ← stripPrefixCI (lit "RequestKey") s;
  afterEquals ← stripPrefixCI (lit "=") (dropWhile isWhiteSpace afterName);
  afterQuote ← stripPrefixCI [34] (dropWhile isWhiteSpace afterEquals);
  let value := takeWhile (isNot 34) afterQuote in
  _ ← stripPrefixCI [34] (dropWhile (isNot 34) afterQuote);
  if nonEmpty value then Some value else None.

(** [RequestKey: token] at the front of [s], with optional white space
    around the colon: the token is the longest non-empty run of letters,
    digits, underscores and hyphens. *)
Definition colonAt (s : jsstring) : option jsstring :=
  afterName ← stripPrefixCI (lit "RequestKey") s;
  afterColon ← stripPrefixCI (lit ":") (dropWhile isWhiteSpace afterName);
  let value := takeWhile isKeyChar (dropWhile isWhiteSpace afterColon) in
  if nonEmpty value then Some value else None.

Definition requestKeySpec (text : option jsstring) : option jsstring :=
  match text with
  | None | Some [] => None
  | Some t =>
      match firstAt elementAt t with
      | Some v => Some (trim v)
      | None =>
          match firstAt attributeAt t with
          | Some v => Some (trim v)
          | None =>
              match firstAt colonAt t with
              | Some v => Some (trim v)
              | None => None
              end
          end
      end
  end.

(** * The rest of the SMS gateway: the generic forwarder *)

(** [s.replace(pat, rep)] for a string pattern and a replacement without
    [$] patterns: the first occurrence only. *)
Definition replaceFirst (pat rep s : jsstring) : jsstring :=
  match splitFirst pat s with
  | Some (a, b) => a ++ rep ++ b
  | None => s
  end.

(** [Buffer.from(text)]: the UTF-8 bytes of a string.  A surrogate pair is
    one code point of four bytes; a lone surrogate becomes U+FFFD.  The
    shifts and masks of the encoding are written as divisions and
    remainders by powers of two. *)
Fixpoint utf8Encode (s : jsstring) : list N :=
  match s with
  | [] => []
  | c :: t =>
      if c <? 128 then c :: utf8Encode t
      else if c <? 2048 then
        (192 + c / 64) :: (128 + c mod 64) :: utf8Encode t
      else if inRange 55296 56319 c then
        match t with
        | d :: t' =>
            if inRange 56320 57343 d then
              let cp := 65536 + (c - 55296) * 1024 + (d - 56320) in
              (240 + cp / 262144) :: (128 + (cp / 4096) mod 64)
              :: (128 + (cp / 64) mod 64) :: (128 + cp mod 64)
              :: utf8Encode t'
            else 239 :: 191 :: 189 :: utf8Encode t
        | [] => [239; 191; 189]
        end
      else if inRange 56320 57343 c then 239 :: 191 :: 189 :: utf8Encode t
      else
        (224 + c / 4096) :: (128 + (c / 64) mod 64) :: (128 + c mod 64)
        :: utf8Encode t
  end.

(** The base64 alphabet. *)
Definition base64Char (i : N) : char :=
  if i <? 26 then 65 + i
  else if i <? 52 then 97 + (i - 26)
  else if i <? 62 then 48 + (i - 52)
  else if i =? 62 then 43
  else 47.

(** [buffer.toString('base64')]: three bytes give four characters; one or
    two bytes at the end are padded with [=]. *)
Fixpoint base64 (bytes : list N) : jsstring :=
  match bytes with
  | [] => []
  | [a] => [base64Char (a / 4); base64Char ((a mod 4) * 16); 61; 61]
  | [a; b] =>
      [base64Char (a / 4); base64Char ((a mod 4) * 16 + b / 16);
       base64Char ((b mod 16) * 4); 61]
  | a :: b :: c :: rest =>
      base64Char (a / 4) :: base64Char ((a mod 4) * 16 + b / 16)
      :: base64Char ((b mod 16) * 4 + c / 64) :: base64Char (c mod 64)
      :: base64 rest
  end.

(** The request as [forwardSms] reads it. *)
Record forward_request (B : Type) := ForwardRequest {
  reqMethod : jsstring;
  reqUrl : jsstring;
  reqBody : B }.
Arguments ForwardRequest {B} reqMethod reqUrl reqBody.
Arguments reqMethod {B} f.
Arguments reqUrl {B} f.
Arguments reqBody {B} f.

(** The arguments that [forwardSms] hands to [fetch]; [forwardBody] is the
    value given as JSON text for the body, absent for a [GET]. *)
Record forward_outbound (B : Type) := ForwardOutbound {
  forwardUrl : jsstring;
  forwardMethod : jsstring;
  forwardHeaders : list (string * jsstring);
  forwardBody : option B }.
Arguments ForwardOutbound {B} forwardUrl forwardMethod forwardHeaders forwardBody.
Arguments forwardUrl {B} f.
Arguments forwardMethod {B} f.
Arguments forwardHeaders {B} f.
Arguments forwardBody {B} f.

Definition SMS_ORIGIN : jsstring := lit "https://rest.smsportal.com".

Definition MISSING_SMS_CREDENTIALS : response :=
  json_error 400
    (<["ok" := JBool false]>
     (<["error" := JString (lit "Missing SMS credentials")]>
     (<["hint" := JString (lit "Set SMS_CLIENT_ID and SMS_CLIENT_SECRET as Render environment variables (or secrets.local.json for local dev).")]> ∅))).

(** [forwardSms(req, res, smsPathOverride)] *)
Definition forwardSmsRequest {B} (w : world) (req : forward_request B)
    (smsPathOverride : option jsstring)
  : outcome (forward_outbound B) sms_fetch_result :=
  match getSmsCredentials w with
  | (Some clientId, Some clientSecret) =>
      let smsPath :=
        match smsPathOverride with
        | Some path => path
        | None => replaceFirst (lit "/api/sms") [] (reqUrl req)
        end in
      let smsUrl := SMS_ORIGIN ++ smsPath in
      let authString :=
        base64 (utf8Encode (clientId ++ lit ":" ++ clientSecret)) in
      Call (ForwardOutbound smsUrl (reqMethod req)
              [("Content-Type", lit "application/json");
               ("Authorization", lit "Basic " ++ authString)]
              (if bool_decide (reqMethod req = lit "GET") then None
               else Some (reqBody req)))
           smsReply
  | _ => Respond MISSING_SMS_CREDENTIALS
  end.

(** [app.get('/api/sms/test', ...)] *)
Definition smsTestHandler {B} (w : world) (req : forward_request B)
  : outcome (forward_outbound B) sms_fetch_result :=
  forwardSmsRequest w req (Some (lit "/v1/Balance")).

(** [app.all('/api/sms', ...)] and [app.all('/api/sms/*', ...)] *)
Definition smsPassthrough {B} (w : world) (req : forward_request B)
  : outcome (forward_outbound B) sms_fetch_result :=
  forwardSmsRequest w req None.

Example base64_ascii :
  base64 (utf8Encode (lit "id:key")) = lit "aWQ6a2V5".
Proof. vm_compute. reflexivity. Qed.

Example base64_padding :
  base64 (utf8Encode (lit "a:bc")) = lit "YTpiYw==".
Proof. vm_compute. reflexivity. Qed.

Example passthrough_path :
  replaceFirst (lit "/api/sms") [] (lit "/api/sms/v1/Balance?x=/api/sms")
  = lit "/v1/Balance?x=/api/sms".
Proof. vm_compute. reflexivity. Qed.

(** The reader's side of the Authorization header: the bytes that a base64
    text stands for. *)
Definition base64Index (c : char) : option N :=
  if inRange 65 90 c then Some (c - 65)
  else if inRange 97 122 c then Some (c - 97 + 26)
  else if inRange 48 57 c then Some (c - 48 + 52)
  else if c =? 43 then Some 62
  else if c =? 47 then Some 63
  else None.

Fixpoint base64Decode (s : jsstring) : option (list N) :=
  match s with
  | [] => Some []
  | c1 :: c2 :: c3 :: c4 :: rest =>
      match base64Index c1, base64Index c2 with
      | Some i1, Some i2 =>
          let a := i1 * 4 + i2 / 16 in
          match base64Index c3, base64Index c4, rest with
          | Some i3, Some i4, _ =>
              match base64Decode rest with
              | Some bytes =>
                  Some (a :: ((i2 mod 16) * 16 + i3 / 4)
                          :: ((i3 mod 4) * 64 + i4) :: bytes)
              | None => None
              end
          | Some i3, None, [] =>
              if c4 =? 61 then Some [a; (i2 mod 16) * 16 + i3 / 4] else None
          | None, None, [] =>
              if (c3 =? 61) && (c4 =? 61) then Some [a] else None
          | _, _, _ => None
          end
      | _, _ => None
      end
  | _ => None
  end.

(** * The local secrets file (server.js, [loadLocalSecrets]) *)



(** What [JSON.parse] makes of a text, as far as the server looks at it: an
    object with its string fields, an array, or another value ([null], a
    number, a string, a boolean). *)
Inductive json_document :=
  | DocObject (fields : gmap string jsstring)
  | DocArray
  | DocOther.


Section LocalSecrets.

(** [JSON.parse]; [None] is its SyntaxError. *)
Variable jsonParse : jsstring -> option json_document.


End LocalSecrets.

(** * GET /health *)

(** [PORT]: [Number(process.env.PORT)] when the variable is set to a
    non-empty text, 3001 otherwise.  The number is given by the text it is
    read from.  The server reads it once, when it starts; the environment
    is taken to be the same since. *)
Inductive port_number :=
  | DefaultPort
  | NumberOf (text : jsstring).

Definition PORT (w : world) : port_number :=
  match jsOr (env w !! "PORT") None with
  | Some text => NumberOf text
  | None => DefaultPort
  end.

Record health_answer := HealthAnswer {
  healthOk : bool;
  healthService : jsstring;
  healthPort : port_number;
  healthTime : jsstring;
  healthCwd : jsstring;
  secretsFileDetected : bool;
  detectedMiePassword : bool;
  detectedMieUsername : bool;
  detectedSmsClientSecret : bool }.

(** [app.get('/health', ...)] for a server whose working directory,
    [process.cwd()], is [cwd]; the answer has status 200. *)
Definition healthHandler (cwd : jsstring) (w : world) : N * health_answer :=
  let secrets := localSecrets w in
  (200,
   HealthAnswer true (lit "rs-local-proxy") (PORT w) (isoNow w) cwd
     (match secrets with Some _ => true | None => false end)
     (truthy (env w !! "MIE_PASSWORD"))
     (truthy (env w !! "MIE_USERNAME"))
     (truthy (env w !! "SMS_CLIENT_SECRET"))).

(** * The handlers run against a vendor *)

(** The final answer of a handler when the outbound call, if it is made,
    has the outcome that [vendor] gives for it. *)
Definition run {O R} (vendor : O -> R) (h : outcome O R) : response :=
  match h with
  | Respond r => r
  | Call o k => k (vendor o)
  end.

Example base64_roundtrip_example :
  base64Decode (base64 (utf8Encode (lit "id:key1"))) = Some (lit "id:key1").
Proof. vm_compute. reflexivity. Qed.

(** * Helpers for stating properties of the gateway *)

(** The first of the candidate values that is present and not empty. *)
Fixpoint firstNonEmpty (candidates : list (option jsstring))
  : option jsstring :=
  match candidates with
  | [] => None
  | Some (c :: s) :: _ => Some (c :: s)
  | _ :: rest => firstNonEmpty rest
  end.

(** The normalisation of a phone number as a function of its digits. *)
Definition normalise (d : jsstring) : jsstring :=
  match d with
  | [] => []
  | _ =>
      if startsWith (lit "27") d then d
      else if startsWith (lit "0") d then lit "27" ++ drop 1 d
      else if (length d =? 9)%nat then lit "27" ++ d
      else d
  end.

(** The value of a header. *)
Fixpoint header (name : string) (headers : list (string * jsstring))
  : option jsstring :=
  match headers with
  | [] => None
  | (n, v) :: rest => if String.eqb n name then Some v else header name rest
  end.

(** The request [req] with the user name and the password of its body set
    to the given strings. *)
Definition withCredentials (req : mie_request) (user pass : jsstring)
  : mie_request :=
  MieRequest (method req) (soapUrl req) (Some user) (Some pass)
    (clientKey req) (agentKey req) (source req) (payload req)
    (aLogonXmlOverride req) (aArgumentOverride req).

(** The text between the user name and the password in the logon
    fragment. *)
Definition USERNAME_TO_PASSWORD : jsstring := lit "</UserName><Password>".

(** * Prefixes and first occurrences *)

Lemma startsWith_true p s :
  startsWith p s = true <-> exists x, s = p ++ x.
Proof.
  revert s. induction p as [|a p IH]; intros s; simpl.
  - split; [intros _; by exists s | done].
  - destruct s as [|b s].
    + split; [done | intros [x Hx]; discriminate].
    + rewrite andb_true_iff, IH, N.eqb_eq. split.
      * intros [-> [x ->]]. by exists x.
      * intros [x [= -> ->]]. split; [done | by exists x].
Qed.

Lemma startsWith_app p x : startsWith p (p ++ x) = true.
Proof. apply startsWith_true. by exists x. Qed.

Lemma stripPrefix_Some p s body :
  stripPrefix p s = Some body <-> s = p ++ body.
Proof.
  revert s. induction p as [|a p IH]; intros s; simpl.
  - split; [by intros [= ->] | by intros ->].
  - destruct s as [|b s]; [done|].
    destruct (N.eqb_spec a b) as [->|Hne].
    + rewrite IH. split; [by intros -> | by intros [= ->]].
    + split; [done | intros [= -> ->]; done].
Qed.

Lemma stripPrefix_app p x : stripPrefix p (p ++ x) = Some x.
Proof. by apply stripPrefix_Some. Qed.

Lemma splitFirst_Some pat s a b :
  splitFirst pat s = Some (a, b) -> s = a ++ pat ++ b.
Proof.
  revert a b. induction s as [|c t IH]; intros a b; cbn [splitFirst].
  - destruct (startsWith pat []) eqn:E; [|done]. intros [= <- <-].
    apply startsWith_true in E as [x Hx]. symmetry in Hx.
    apply app_eq_nil in Hx as [-> ->]. done.
  - destruct (startsWith pat (c :: t)) eqn:E.
    + intros [= <- <-]. apply startsWith_true in E as [x ->].
      by rewrite drop_app_length.
    + destruct (splitFirst pat t) as [[x y]|]; [|done].
      intros [= <- <-]. by rewrite (IH x y eq_refl) at 1.
Qed.

(** No occurrence at all: [splitFirst] fails exactly then. *)
Lemma splitFirst_None pat s :
  splitFirst pat s = None <-> forall a b, s <> a ++ pat ++ b.
Proof.
  induction s as [|c t IH]; cbn [splitFirst].
  - destruct (startsWith pat []) eqn:E.
    + split; [done|]. intros H. apply startsWith_true in E as [x Hx].
      destruct (H [] x). done.
    + split; [|done]. intros _ a b Hab.
      assert (startsWith pat [] = true); [|congruence].
      apply startsWith_true. symmetry in Hab.
      apply app_eq_nil in Hab as [_ Hab]. apply app_eq_nil in Hab as [-> ->].
      by exists [].
  - destruct (startsWith pat (c :: t)) eqn:E.
    + split; [done|]. intros H. apply startsWith_true in E as [x Hx].
      destruct (H [] x). done.
    + destruct (splitFirst pat t) as [[x y]|] eqn:Et.
      * split; [done|]. intros H. apply splitFirst_Some in Et.
        destruct (H (c :: x) y). by rewrite Et.
      * split; [|done]. intros _ a b Hab.
        destruct a as [|a0 a].
        -- assert (startsWith pat (c :: t) = true); [|congruence].
           apply startsWith_true. by exists b.
        -- injection Hab as -> Hab. by apply (proj1 IH eq_refl a b).
Qed.

(** * The escaping step of [cdataWrap] *)

Lemma replaceAll_hit p ps rep s :
  startsWith (p :: ps) s = true ->
  replaceAll (p :: ps) rep s =
  rep ++ replaceAll (p :: ps) rep (drop (length (p :: ps)) s).
Proof.
  destruct s as [|c t]; [done|]. intros H. simp replaceAll.
  rewrite H. done.
Qed.

Lemma replaceAll_miss p ps rep c t :
  startsWith (p :: ps) (c :: t) = false ->
  replaceAll (p :: ps) rep (c :: t) = c :: replaceAll (p :: ps) rep t.
Proof. intros H. simp replaceAll. rewrite H. done. Qed.

Lemma replaceAll_absent p ps rep s :
  splitFirst (p :: ps) s = None -> replaceAll (p :: ps) rep s = s.
Proof.
  induction s as [|c t IH]; [by simp replaceAll|].
  cbn [splitFirst]. destruct (startsWith (p :: ps) (c :: t)) eqn:E; [done|].
  destruct (splitFirst (p :: ps) t) as [[x y]|]; [done|]. intros _.
  rewrite replaceAll_miss by done. by rewrite IH.
Qed.

Lemma replaceAll_first p ps rep s a b :
  splitFirst (p :: ps) s = Some (a, b) ->
  replaceAll (p :: ps) rep s = a ++ rep ++ replaceAll (p :: ps) rep b.
Proof.
  revert a. induction s as [|c t IH]; intros a; [done|].
  cbn [splitFirst]. destruct (startsWith (p :: ps) (c :: t)) eqn:E.
  - intros [= <- <-]. by rewrite replaceAll_hit.
  - destruct (splitFirst (p :: ps) t) as [[x y]|]; [|done].
    intros [= <- <-]. rewrite replaceAll_miss by done.
    by rewrite (IH x eq_refl).
Qed.

Lemma cdataSections_eq s :
  cdataSections s =
  match stripPrefix CDATA_OPEN s with
  | None => None
  | Some body =>
      match splitFirst CDATA_CLOSE body with
      | None => None
      | Some (d, rest) =>
          if startsWith CDATA_OPEN rest
          then match cdataSections rest with
               | Some (d', r) => Some (d ++ d', r)
               | None => None
               end
          else Some (d, rest)
      end
  end.
Proof.
  funelim (cdataSections s).
  all: repeat match goal with
         | H : ?x = _ |- context [?x] => rewrite H
         end; try done.
Qed.

Lemma splitFirst_before p ps s a b :
  splitFirst (p :: ps) s = Some (a, b) -> splitFirst (p :: ps) a = None.
Proof.
  revert a. induction s as [|c t IH]; intros a; [done|].
  cbn [splitFirst]. destruct (startsWith (p :: ps) (c :: t)) eqn:E.
  - by intros [= <- <-].
  - destruct (splitFirst (p :: ps) t) as [[x y]|] eqn:Et; [|done].
    intros [= <- <-]. cbn [splitFirst]. rewrite (IH x eq_refl).
    destruct (startsWith (p :: ps) (c :: x)) eqn:Ex; [|done].
    apply startsWith_true in Ex as [z Hz].
    assert (startsWith (p :: ps) (c :: t) = true); [|congruence].
    apply startsWith_true. apply splitFirst_Some in Et.
    exists (z ++ (p :: ps) ++ y).
    rewrite Et. change (c :: x ++ (p :: ps) ++ y) with ((c :: x) ++ (p :: ps) ++ y).
    rewrite Hz. by rewrite <- app_assoc.
Qed.

(** [CDATA_CLOSE] has no border: an occurrence cannot begin inside text that
    is followed by two closing brackets unless it lies within that text. *)
Lemma close_not_at_front c a y :
  startsWith CDATA_CLOSE (c :: a) = false ->
  startsWith CDATA_CLOSE (c :: a ++ 93 :: 93 :: y) = false.
Proof.
  unfold CDATA_CLOSE. destruct a as [|d [|e a]]; cbn [startsWith app].
  - intros _. destruct (93 =? c); reflexivity.
  - intros _. destruct (93 =? c), (93 =? d); reflexivity.
  - done.
Qed.

Lemma splitFirst_close_app a y :
  splitFirst CDATA_CLOSE a = None ->
  splitFirst CDATA_CLOSE (a ++ 93 :: 93 :: y) =
  match splitFirst CDATA_CLOSE (93 :: 93 :: y) with
  | Some (x, z) => Some (a ++ x, z)
  | None => None
  end.
Proof.
  remember (splitFirst CDATA_CLOSE (93 :: 93 :: y)) as r eqn:Hr.
  induction a as [|c a IH].
  - intros _. simpl app. rewrite <- Hr. by destruct r as [[x z]|].
  - cbn [splitFirst]. destruct (startsWith CDATA_CLOSE (c :: a)) eqn:E; [done|].
    destruct (splitFirst CDATA_CLOSE a) as [[x z]|]; [done|]. intros _.
    rewrite <- app_comm_cons. cbn [splitFirst].
    rewrite (close_not_at_front _ _ _ E), (IH eq_refl).
    by destruct r as [[x z]|].
Qed.

Lemma splitFirst_close_end a rest :
  splitFirst CDATA_CLOSE a = None ->
  splitFirst CDATA_CLOSE (a ++ CDATA_CLOSE ++ rest) = Some (a, rest).
Proof.
  intros H. unfold CDATA_CLOSE at 2. simpl app.
  rewrite (splitFirst_close_app _ _ H). unfold CDATA_CLOSE.
  cbn. by rewrite app_nil_r.
Qed.

Lemma splitFirst_close_split a x :
  splitFirst CDATA_CLOSE a = None ->
  splitFirst CDATA_CLOSE (a ++ CDATA_SPLIT ++ x) =
  Some (a ++ [93; 93], CDATA_OPEN ++ 62 :: x).
Proof.
  intros H. unfold CDATA_SPLIT. simpl app.
  rewrite (splitFirst_close_app _ _ H). unfold CDATA_CLOSE. cbn.
  reflexivity.
Qed.

Lemma cdataSections_escaped v rest :
  startsWith CDATA_OPEN rest = false ->
  cdataSections
    (CDATA_OPEN ++ replaceAll CDATA_CLOSE CDATA_SPLIT v ++ CDATA_CLOSE ++ rest)
  = Some (v, rest).
Proof.
  intros Hrest. remember (length v) as n eqn:Hn. revert v Hn.
  induction n as [n IH] using lt_wf_ind. intros v ->.
  rewrite cdataSections_eq, stripPrefix_app.
  destruct (splitFirst CDATA_CLOSE v) as [[a v']|] eqn:E.
  - rewrite (replaceAll_first _ _ _ _ _ _ E), <- !app_assoc.
    rewrite (splitFirst_close_split _ _ (splitFirst_before _ _ _ _ _ E)).
    rewrite startsWith_app.
    assert (Hv : v = a ++ CDATA_CLOSE ++ v') by by apply splitFirst_Some.
    assert (Hm : replaceAll CDATA_CLOSE CDATA_SPLIT (62 :: v') =
                 62 :: replaceAll CDATA_CLOSE CDATA_SPLIT v').
    { by apply replaceAll_miss. }
    specialize (IH (length (62 :: v'))). rewrite Hv in IH.
    rewrite !length_app in IH. specialize (IH ltac:(simpl; lia) _ eq_refl).
    rewrite Hm, <- app_comm_cons in IH.
    change [93; 93; 62] with CDATA_CLOSE. rewrite IH.
    rewrite Hv, <- app_assoc. done.
  - rewrite (replaceAll_absent _ _ _ _ E), (splitFirst_close_end _ _ E), Hrest.
    done.
Qed.

Lemma escape_nil : replaceAll CDATA_CLOSE CDATA_SPLIT [] = [].
Proof. reflexivity. Qed.

Lemma escape_hit s :
  startsWith CDATA_CLOSE s = true ->
  replaceAll CDATA_CLOSE CDATA_SPLIT s =
  CDATA_SPLIT ++ replaceAll CDATA_CLOSE CDATA_SPLIT (drop 3 s).
Proof. apply replaceAll_hit. Qed.

Lemma escape_miss c t :
  startsWith CDATA_CLOSE (c :: t) = false ->
  replaceAll CDATA_CLOSE CDATA_SPLIT (c :: t) =
  c :: replaceAll CDATA_CLOSE CDATA_SPLIT t.
Proof. apply replaceAll_miss. Qed.

(** Escaping keeps a text that does not begin with the terminator from
    beginning with it, also when closing brackets follow. *)
Lemma escaped_not_at_front c t y :
  startsWith CDATA_CLOSE (c :: t) = false ->
  startsWith CDATA_CLOSE
    (c :: replaceAll CDATA_CLOSE CDATA_SPLIT t ++ 93 :: 93 :: y) = false.
Proof.
  intros H. destruct t as [|d t].
  { rewrite escape_nil. by apply close_not_at_front. }
  destruct (startsWith CDATA_CLOSE (d :: t)) eqn:Ed.
  { rewrite escape_hit by done. unfold CDATA_CLOSE, CDATA_SPLIT.
    cbn [startsWith app]. destruct (93 =? c); reflexivity. }
  rewrite escape_miss by done. destruct t as [|e t].
  { rewrite escape_nil. by apply (close_not_at_front c [d]). }
  destruct (startsWith CDATA_CLOSE (e :: t)) eqn:Ee.
  { rewrite escape_hit by done. unfold CDATA_CLOSE, CDATA_SPLIT.
    cbn [startsWith app]. destruct (93 =? c), (93 =? d); reflexivity. }
  rewrite escape_miss by done. exact H.
Qed.

Lemma escaped_close_followed v pre post :
  replaceAll CDATA_CLOSE CDATA_SPLIT v ++ CDATA_CLOSE
    = pre ++ CDATA_CLOSE ++ post ->
  post = [] \/ startsWith CDATA_OPEN post = true.
Proof.
  remember (length v) as n eqn:Hn. revert v pre Hn.
  induction n as [n IH] using lt_wf_ind. intros v pre -> H.
  destruct v as [|c t].
  { rewrite escape_nil in H. apply (f_equal length) in H.
    rewrite !length_app in H. simpl in H. left.
    destruct post; [done | simpl in H; lia]. }
  destruct (startsWith CDATA_CLOSE (c :: t)) eqn:E.
  - rewrite escape_hit in H by done.
    apply startsWith_true in E as [v' Hv]. rewrite Hv in *.
    change 3%nat with (length CDATA_CLOSE) in H. rewrite drop_app_length in H.
    unfold CDATA_SPLIT in H at 1. unfold CDATA_CLOSE in H at 2 3.
    cbn [app] in H.
    do 15 (destruct pre as [|? pre];
           [ cbn [app] in H;
             first [ discriminate H | injection H as <-; right; reflexivity ] |
             cbn [app] in H; injection H as <- H ]).
    apply (IH (length v')) with (v := v') (pre := pre); [|done|done].
      rewrite length_app. simpl. lia.
  - rewrite escape_miss in H by done.
    destruct pre as [|a pre].
    + apply (escaped_not_at_front _ _ [62]) in E.
      assert (startsWith CDATA_CLOSE
                (c :: replaceAll CDATA_CLOSE CDATA_SPLIT t ++ [93; 93; 62])
              = true); [|congruence].
      apply startsWith_true. exists post. exact H.
    + injection H as -> H.
      apply (IH (length t)) with (v := t) (pre := pre); [simpl; lia|done|done].
Qed.

Lemma cdataWrap_close_followed v pre post :
  cdataWrap v = pre ++ CDATA_CLOSE ++ post ->
  post = [] \/ startsWith CDATA_OPEN post = true.
Proof.
  unfold cdataWrap. intros H. unfold CDATA_OPEN in H at 1.
  unfold CDATA_CLOSE in H at 3. cbn [app] in H.
  do 9 (destruct pre as [|? pre];
        [ cbn [app] in H; discriminate H |
          cbn [app] in H; injection H as <- H ]).
  by apply (escaped_close_followed v pre post).
Qed.

(** ** C1: CDATA wrapping *)

(** C1.  For every string [v], [cdataWrap v] is [v] with every occurrence of
    the terminator replaced by [CDATA_SPLIT] (the text up to the first
    occurrence is kept, the occurrence becomes [CDATA_SPLIT], and the rest is
    treated the same way), enclosed in [CDATA_OPEN] ... [CDATA_CLOSE].
    Reading the produced run of CDATA sections back yields exactly [v] and
    consumes the whole text; every terminator in the output is either the
    last one or immediately followed by the opening of the next section, so
    no terminator embedded in [v] ends the run early; and wrapping an already
    escaped or already wrapped string and unwrapping gives that string back,
    hence [v] after the second unwrapping. *)
Theorem cdataWrap_roundtrip (v : jsstring) :
  cdataWrap v
    = CDATA_OPEN ++ replaceAll CDATA_CLOSE CDATA_SPLIT v ++ CDATA_CLOSE
  /\ ((forall x y, v <> x ++ CDATA_CLOSE ++ y) ->
      replaceAll CDATA_CLOSE CDATA_SPLIT v = v)
  /\ (forall a b,
        v = a ++ CDATA_CLOSE ++ b ->
        (forall x y, a <> x ++ CDATA_CLOSE ++ y) ->
        replaceAll CDATA_CLOSE CDATA_SPLIT v
          = a ++ CDATA_SPLIT ++ replaceAll CDATA_CLOSE CDATA_SPLIT b)
  /\ cdataUnwrap (cdataWrap v) = Some v
  /\ (forall pre post,
        cdataWrap v = pre ++ CDATA_CLOSE ++ post ->
        post = [] \/ startsWith CDATA_OPEN post = true)
  /\ cdataUnwrap (cdataWrap (replaceAll CDATA_CLOSE CDATA_SPLIT v))
     = Some (replaceAll CDATA_CLOSE CDATA_SPLIT v)
  /\ cdataUnwrap (cdataWrap (cdataWrap v)) = Some (cdataWrap v)
  /\ (cdataUnwrap (cdataWrap (cdataWrap v)) ≫= cdataUnwrap) = Some v.
Proof.
  assert (Hrt : forall w, cdataUnwrap (cdataWrap w) = Some w).
  { intros w. unfold cdataUnwrap, cdataWrap.
    rewrite <- (app_nil_r CDATA_CLOSE) at 2.
    by rewrite (cdataSections_escaped w []). }
  split; [reflexivity|]. split; [|split; [|split; [|split; [|split; [|split]]]]].
  - intros H. apply replaceAll_absent. by apply splitFirst_None.
  - intros a b -> Ha. apply (replaceAll_first 93 [93; 62]).
    apply splitFirst_close_end. by apply splitFirst_None.
  - apply Hrt.
  - apply cdataWrap_close_followed.
  - apply Hrt.
  - apply Hrt.
  - rewrite Hrt. simpl. apply Hrt.
Qed.

(** The escaping step alone is not idempotent; the round trip above is what
    re-wrapping preserves. *)
Remark escape_twice_differs :
  replaceAll CDATA_CLOSE CDATA_SPLIT
    (replaceAll CDATA_CLOSE CDATA_SPLIT CDATA_CLOSE)
  <> replaceAll CDATA_CLOSE CDATA_SPLIT CDATA_CLOSE.
Proof. vm_compute. discriminate. Qed.

Lemma cdataWrap_roundtrip_witness :
  cdataUnwrap (cdataWrap (lit "a]]>b]]")) = Some (lit "a]]>b]]").
Proof. apply (cdataWrap_roundtrip (lit "a]]>b]]")). Defined.

(** * Phone-number normalisation *)

Lemma replaceClass_strip p s :
  replaceClass (fun c => negb (p c)) [] s = List.filter p s.
Proof.
  unfold replaceClass. induction s as [|c s IH]; [done|].
  simpl. destruct (p c); simpl; by rewrite IH.
Qed.

(** C3.  For every phone string, with [d] its digits ([cleaned] of the
    source): [d] is returned unchanged when it starts with 27; otherwise a
    leading 0 is replaced by 27; otherwise 27 is put in front of exactly nine
    digits; otherwise [d] is returned as it is.  An empty or digit-free
    input, and an absent one, give the empty string. *)
Theorem formatSmsPortalNumber_spec (phone : jsstring) :
  let d := List.filter isDigit phone in
  let r := formatSmsPortalNumber (Some phone) in
  (startsWith (lit "27") d = true -> r = d)
  /\ (forall d', startsWith (lit "27") d = false -> d = 48 :: d' ->
        r = lit "27" ++ d')
  /\ (startsWith (lit "27") d = false -> startsWith (lit "0") d = false ->
      length d = 9%nat -> r = lit "27" ++ d)
  /\ (startsWith (lit "27") d = false -> startsWith (lit "0") d = false ->
      length d <> 9%nat -> r = d)
  /\ (d = [] -> r = [])
  /\ formatSmsPortalNumber (Some []) = []
  /\ formatSmsPortalNumber None = [].
Proof.
  intros d r.
  assert (Hr : r = match d with
                   | [] => []
                   | _ =>
                     if startsWith (lit "27") d then d
                     else if startsWith (lit "0") d then lit "27" ++ drop 1 d
                     else if (length d =? 9)%nat then lit "27" ++ d
                     else d
                   end).
  { subst r d. unfold formatSmsPortalNumber.
    destruct phone as [|c t]; [done|].
    change (jsOr (Some (c :: t)) None) with (Some (c :: t)).
    cbv beta iota zeta. by rewrite replaceClass_strip. }
  clearbody r. subst r.
  repeat split.
  - intros H. destruct d; [done|]. by rewrite H.
  - intros d' H27 ->. rewrite H27. reflexivity.
  - intros H27 H0 Hlen. destruct d; [done|]. rewrite H27, H0.
    apply Nat.eqb_eq in Hlen. by rewrite Hlen.
  - intros H27 H0 Hlen. destruct d; [done|]. rewrite H27, H0.
    apply Nat.eqb_neq in Hlen. by rewrite Hlen.
  - by intros ->.
Qed.

Lemma formatSmsPortalNumber_spec_witness :
  formatSmsPortalNumber (Some (lit "082 123 4567")) = lit "27821234567".
Proof.
  apply (formatSmsPortalNumber_spec (lit "082 123 4567")).
  - reflexivity.
  - reflexivity.
Defined.

(** * CDATA elements of the envelope *)

Lemma cdataSections_wrap v rest :
  startsWith CDATA_OPEN rest = false ->
  cdataSections (cdataWrap v ++ rest) = Some (v, rest).
Proof.
  intros H. unfold cdataWrap. cbv zeta. rewrite <- !app_assoc.
  by apply cdataSections_escaped.
Qed.

Lemma cdataElement_wrap name v rest :
  cdataElement name
    (lit "<" ++ name ++ lit ">" ++ cdataWrap v ++ lit "</" ++ name ++ lit ">"
     ++ rest)
  = Some (v, rest).
Proof.
  unfold cdataElement.
  replace (lit "<" ++ name ++ lit ">" ++ cdataWrap v ++ lit "</" ++ name
           ++ lit ">" ++ rest)
    with ((lit "<" ++ name ++ lit ">")
          ++ cdataWrap v ++ lit "</" ++ name ++ lit ">" ++ rest)
    by by rewrite <- !app_assoc.
  rewrite stripPrefix_app, cdataSections_wrap by reflexivity.
  replace (lit "</" ++ name ++ lit ">" ++ rest)
    with ((lit "</" ++ name ++ lit ">") ++ rest) by by rewrite <- !app_assoc.
  by rewrite stripPrefix_app.
Qed.

(** * POST /api/mie *)

Section Mie.

Variable toLowerCase toUpperCase : jsstring -> jsstring.
Variable newRegExp : regexp_constructor.

Abbreviation handler := (mieHandler toLowerCase toUpperCase newRegExp).

Lemma jsOr_null (v : option jsstring) :
  jsOr v None = if truthy v then v else None.
Proof. reflexivity. Qed.

Lemma jsOr_falsy (v : option jsstring) :
  truthy v = false -> jsOr v None = None.
Proof. unfold jsOr. by intros ->. Qed.

Lemma jsOr_truthy (v : option jsstring) :
  truthy v = true -> exists s, v = Some s /\ s <> [] /\ jsOr v None = Some s.
Proof.
  unfold jsOr. destruct v as [[|c s]|]; try done.
  intros _. by exists (c :: s).
Qed.

(** The password is the first non-empty of the four sources, in the order
    of the source. *)
Lemma resolvePassword_first (w : world) (fromBody : option jsstring) :
  resolvePassword w fromBody =
  if truthy fromBody then fromBody
  else if truthy (env w !! "MIE_PASSWORD") then env w !! "MIE_PASSWORD"
  else if truthy (secret w "MIE_PASSWORD") then secret w "MIE_PASSWORD"
  else if truthy (secret w "mie_password") then secret w "mie_password"
  else None.
Proof.
  unfold resolvePassword, jsOr.
  repeat match goal with
         | |- context [truthy ?v] =>
             lazymatch v with
             | context [truthy] => fail
             | _ => destruct (truthy v) eqn:?
             end
         end; congruence.
Qed.

(** C7.  [POST /api/mie] answers 400 at once, without an outbound call, when
    required input is missing: without a method the error names the method;
    with a method but without a soapUrl it names the soapUrl; with both but
    with no password in the body, the environment or the secrets file (under
    either key) the answer carries [ok: false], an error and a hint that
    names the environment variable and the secrets file. *)
Theorem mie_missing_input (w : world) (req : mie_request) :
  (truthy (method req) = false ->
   exists e,
     handler w req
       = Respond (Response 400 (Json (<["ok" := JBool false]>
                                      (<["error" := JString e]> ∅))))
     /\ mentions (lit "method") e = true)
  /\ (truthy (method req) = true -> truthy (soapUrl req) = false ->
      exists e,
        handler w req
          = Respond (Response 400 (Json (<["ok" := JBool false]>
                                         (<["error" := JString e]> ∅))))
        /\ mentions (lit "soapUrl") e = true)
  /\ (truthy (method req) = true -> truthy (soapUrl req) = true ->
      truthy (passwordFromBody req) = false ->
      truthy (env w !! "MIE_PASSWORD") = false ->
      truthy (secret w "MIE_PASSWORD") = false ->
      truthy (secret w "mie_password") = false ->
      exists e h,
        handler w req
          = Respond (Response 400 (Json (<["ok" := JBool false]>
                                         (<["error" := JString e]>
                                         (<["hint" := JString h]> ∅)))))
        /\ mentions (lit "password") e = true
        /\ mentions (lit "environment variable") h = true
        /\ mentions (lit "secrets.local.json") h = true).
Proof.
  unfold mieHandler. split; [|split].
  - intros Hm. rewrite (jsOr_falsy _ Hm). eexists. split; [reflexivity|].
    vm_compute. reflexivity.
  - intros Hm Hu. apply jsOr_truthy in Hm as (m & _ & _ & ->).
    rewrite (jsOr_falsy _ Hu). eexists. split; [reflexivity|].
    vm_compute. reflexivity.
  - intros Hm Hu H1 H2 H3 H4.
    apply jsOr_truthy in Hm as (m & _ & _ & ->).
    apply jsOr_truthy in Hu as (u & _ & _ & ->).
    rewrite resolvePassword_first, H1, H2, H3, H4.
    do 2 eexists. split; [reflexivity|]. vm_compute. done.
Qed.

(** A request that passes validation makes exactly the outbound call of the
    source and answers with [mieReply]. *)
Lemma handler_call (w : world) (req : mie_request) o k :
  handler w req = Call o k ->
  exists m u p arg,
    method req = Some m /\ m <> [] /\ soapUrl req = Some u /\ u <> []
    /\ resolvePassword w (passwordFromBody req) = Some p
    /\ aArgument toUpperCase w req = Returned arg
    /\ o = MieOutbound u (lit "POST")
             [("Content-Type", lit "text/xml; charset=utf-8");
              ("SOAPAction", soapAction m);
              ("Accept", lit "text/xml")]
             (soapEnvelope toLowerCase m (aLogonXml req p) arg)
    /\ k = mieReply newRegExp m u.
Proof.
  unfold mieHandler. rewrite !jsOr_null.
  destruct (method req) as [[|c m]|]; try done.
  destruct (soapUrl req) as [[|d u]|]; try done.
  cbn [truthy]. destruct (resolvePassword _ _) as [p|]; [|done].
  destruct (aArgument toUpperCase w req) as [arg|message]; [|done].
  intros [= <- <-]. by exists (c :: m), (d :: u), p, arg.
Qed.

(** C6.  When the outbound call of [POST /api/mie] returns a status outside
    200..299, the handler answers 502 with exactly the fields [ok: false],
    [error] (the text MIE SOAP HTTP followed by the vendor status),
    [soapAction], [soapUrl] and [responseSnippet]; the snippet is the first
    2000 code units of the vendor body (the whole body when it is shorter),
    so it is never longer than 2000, and the full body is not part of the
    answer. *)
Theorem mie_vendor_failure (w : world) (req : mie_request) o k
    (code : N) (respText : jsstring) :
  handler w req = Call o k ->
  ok_status code = false ->
  exists m u fields,
    method req = Some m /\ soapUrl req = Some u
    /\ k (FetchResponse code respText) = Response 502 (Json fields)
    /\ fields !! "ok" = Some (JBool false)
    /\ fields !! "error"
         = Some (JString (lit "MIE SOAP HTTP " ++ decimal code))
    /\ fields !! "soapAction"
         = Some (JString (lit "http://www.kroll.co.za/" ++ m))
    /\ fields !! "soapUrl" = Some (JString u)
    /\ fields !! "responseSnippet" = Some (JString (take 2000 respText))
    /\ (length (take 2000 respText) <= 2000)%nat
    /\ ((length respText <= 2000)%nat -> take 2000 respText = respText)
    /\ fields !! "rawSoapResponse" = None
    /\ dom fields
         = {[ "ok"; "error"; "soapAction"; "soapUrl"; "responseSnippet" ]}.
Proof.
  intros H Hcode. apply handler_call in H as (m & u & p & arg & Hm & _ & Hu & _ & _ & _ & _ & ->).
  exists m, u. eexists. split; [done|]. split; [done|].
  unfold mieReply. rewrite Hcode. cbn [negb]. split; [reflexivity|].
  repeat split; try done.
  - rewrite length_take. lia.
  - intros Hlen. by apply take_ge.
Qed.

(** C9.  In every 200 answer of [POST /api/mie] the [reference] field equals
    the [requestKey] field: both are the non-empty key that the extraction
    gives for the vendor body, or both are [null] when the extraction gives
    nothing or the empty string.  A vendor answer with a 2xx status gets
    this 200 answer whenever the extraction of the result tag returns; when
    the RegExp constructor throws, the handler answers 500. *)
Theorem mie_reference_is_requestKey (w : world) (req : mie_request) o k
    (code : N) (respText : jsstring) :
  handler w req = Call o k ->
  ok_status code = true ->
  exists m,
    method req = Some m
    /\ (forall fields,
          k (FetchResponse code respText) = Response 200 (Json fields) ->
          exists resultText,
            extractTagText newRegExp respText (m ++ lit "Result")
              = Returned resultText
            /\ fields !! "reference" = fields !! "requestKey"
            /\ fields !! "requestKey"
                 = Some (match extractRequestKey resultText with
                         | Some (c :: key) => JString (c :: key)
                         | _ => JNull
                         end))
    /\ (forall resultText,
          extractTagText newRegExp respText (m ++ lit "Result")
            = Returned resultText ->
          exists fields,
            k (FetchResponse code respText) = Response 200 (Json fields))
    /\ (forall message,
          extractTagText newRegExp respText (m ++ lit "Result")
            = Thrown message ->
          status (k (FetchResponse code respText)) = 500).
Proof.
  intros H Hcode. apply handler_call in H as (m & u & p & arg & Hm & _ & Hu & _ & _ & _ & _ & ->).
  exists m. split; [done|].
  unfold mieReply. rewrite Hcode. cbn [negb].
  destruct (extractTagText newRegExp respText (m ++ lit "Result"))
    as [resultText|message].
  - split; [|split; [|done]].
    + intros fields [= <-]. exists resultText. split; [done|]. split; [done|].
      unfold orNull, jsOr, truthy.
      by destruct (extractRequestKey resultText) as [[|c key]|].
    + intros _ _. by eexists.
  - split; [|split; [done|]].
    + intros fields [= Hfields].
    + intros _ _. reflexivity.
Qed.

(** ** The SOAP envelope *)

Abbreviation allowed := (hasArgument toLowerCase).

Lemma hasArgument_allowList (m : jsstring) :
  allowed m = true <->
  toLowerCase m = lit "ksoputrequest" \/ toLowerCase m = lit "ksoputbranch"
  \/ toLowerCase m = lit "ksoputrequestredirect".
Proof.
  unfold hasArgument, allowList. cbn [existsb].
  rewrite !orb_true_iff, !bool_decide_eq_true. intuition congruence.
Qed.

(** The envelope read back: the logon fragment, and the request fragment
    exactly when the method is on the allow-list. *)
Lemma readEnvelope_soapEnvelope (m logon argument : jsstring) :
  readEnvelope m (soapEnvelope toLowerCase m logon argument)
  = Some (logon, if allowed m then Some argument else None).
Proof.
  unfold readEnvelope, soapEnvelope. cbv zeta.
  rewrite (app_assoc ENVELOPE_HEAD), stripPrefix_app.
  change (lit "<aLogonXml>") with (lit "<" ++ lit "aLogonXml" ++ lit ">").
  change (lit "</aLogonXml>") with (lit "</" ++ lit "aLogonXml" ++ lit ">").
  rewrite <- !app_assoc. rewrite cdataElement_wrap.
  destruct (allowed m).
  - change (lit "<aArgument>") with (lit "<" ++ lit "aArgument" ++ lit ">").
    change (lit "</aArgument>") with (lit "</" ++ lit "aArgument" ++ lit ">").
    rewrite <- !app_assoc. rewrite cdataElement_wrap.
    by rewrite bool_decide_eq_true_2.
  - cbn [app]. unfold cdataElement.
    replace (stripPrefix (lit "<" ++ lit "aArgument" ++ lit ">")
               (lit "</" ++ m ++ lit ">" ++ ENVELOPE_TAIL))
      with (@None (list N)) by reflexivity.
    by rewrite bool_decide_eq_true_2.
Qed.

(** C2.  For every request of [POST /api/mie] that reaches the envelope, the
    envelope sent to the vendor holds the [aArgument] element, with the
    request fragment as its character data, if and only if the lower-cased
    method name is one of the three allow-listed names; for every other
    method name the envelope is the operation element with the [aLogonXml]
    element alone. *)
Theorem mie_argument_iff_allowed (w : world) (req : mie_request) o k :
  handler w req = Call o k ->
  exists m p arg,
    method req = Some m
    /\ resolvePassword w (passwordFromBody req) = Some p
    /\ aArgument toUpperCase w req = Returned arg
    /\ (allowed m = true <->
        toLowerCase m = lit "ksoputrequest"
        \/ toLowerCase m = lit "ksoputbranch"
        \/ toLowerCase m = lit "ksoputrequestredirect")
    /\ readEnvelope m (fetchBody o)
       = Some (aLogonXml req p, if allowed m then Some arg else None)
    /\ (allowed m = true ->
        fetchBody o
        = ENVELOPE_HEAD ++ methodOpen m
          ++ lit "<aLogonXml>" ++ cdataWrap (aLogonXml req p)
          ++ lit "</aLogonXml>"
          ++ lit "<aArgument>" ++ cdataWrap arg
          ++ lit "</aArgument>"
          ++ lit "</" ++ m ++ lit ">" ++ ENVELOPE_TAIL)
    /\ (allowed m = false ->
        fetchBody o
        = ENVELOPE_HEAD ++ methodOpen m
          ++ lit "<aLogonXml>" ++ cdataWrap (aLogonXml req p)
          ++ lit "</aLogonXml>"
          ++ lit "</" ++ m ++ lit ">" ++ ENVELOPE_TAIL).
Proof.
  intros H.
  apply handler_call in H as (m & u & p & arg & Hm & _ & Hu & _ & Hp & Ha & -> & _).
  exists m, p, arg. split; [done|]. split; [done|]. split; [done|].
  split; [apply hasArgument_allowList|].
  split; [apply readEnvelope_soapEnvelope|].
  cbn [fetchBody]. unfold soapEnvelope.
  split; intros ->; by rewrite <- ?app_assoc.
Qed.

(** C10 (amended).  For a method name that is not on the allow-list the
    outbound call does not depend on the identity payload: when two requests
    agree on method, soapUrl, username, password, source and the logon
    override, in worlds with the same environment and secrets, and both
    reach the outbound call, they make the same call, whatever their
    payload, clientKey, agentKey and request-fragment override are, and
    whatever the clock shows.  The two stop with the same 400 answer when a
    required input is missing.  A request whose own request fragment cannot
    be built is answered 500 before the call, whatever its twin does. *)
Theorem mie_envelope_independent (w1 w2 : world) (r1 r2 : mie_request) :
  env w1 = env w2 ->
  localSecrets w1 = localSecrets w2 ->
  method r1 = method r2 ->
  soapUrl r1 = soapUrl r2 ->
  username r1 = username r2 ->
  passwordFromBody r1 = passwordFromBody r2 ->
  source r1 = source r2 ->
  aLogonXmlOverride r1 = aLogonXmlOverride r2 ->
  (forall m, method r1 = Some m -> allowed m = false) ->
  match handler w1 r1, handler w2 r2 with
  | Call o1 k1, Call o2 k2 =>
      o1 = o2 /\ fetchBody o1 = fetchBody o2 /\ k1 = k2
  | Respond a1, Respond a2 =>
      a1 = a2 \/ (status a1 = 500 /\ status a2 = 500)
  | Respond a1, Call _ _ =>
      status a1 = 500
      /\ exists message, aArgument toUpperCase w1 r1 = Thrown message
  | Call _ _, Respond a2 =>
      status a2 = 500
      /\ exists message, aArgument toUpperCase w2 r2 = Thrown message
  end.
Proof.
  intros He Hs Hm Hu Hn Hp Hsrc Hl Hallow.
  unfold mieHandler, resolvePassword, secret.
  rewrite <- He, <- Hs, <- Hm, <- Hu, <- Hp.
  destruct (jsOr (method r1) None) as [m|] eqn:Em; [|by left].
  destruct (jsOr (soapUrl r1) None) as [u|]; [|by left].
  match goal with |- context [if truthy ?x then ?x else None] =>
    destruct (if truthy x then x else None) as [p|]; [|by left] end.
  assert (Ha : allowed m = false).
  { apply Hallow. unfold jsOr in Em.
    destruct (truthy (method r1)); [done | discriminate]. }
  destruct (aArgument toUpperCase w1 r1) as [arg1|message1],
    (aArgument toUpperCase w2 r2) as [arg2|message2].
  - unfold soapEnvelope, aLogonXml. rewrite Ha, <- Hn, <- Hsrc, <- Hl. done.
  - split; [done | by eexists].
  - split; [done | by eexists].
  - by right.
Qed.

End Mie.

(** * Credential resolution on POST /api/mie *)

(** C4 (the code departs from it).  For the password the effective value is
    the first non-empty of the request value, the environment variable and
    the two secrets-file keys ([resolvePassword_first]).  For the user name
    the handler does no such resolution: with [MIE_USERNAME] set to alice in
    the environment and no user name in the request, the logon fragment sent
    to the vendor has an empty [UserName] element and alice occurs nowhere
    in the envelope, while the password of the environment is used. *)
Theorem mie_username_not_resolved :
  env deployedWorld !! "MIE_USERNAME" = Some (lit "alice")
  /\ username bareRequest = None
  /\ resolvePassword deployedWorld (passwordFromBody bareRequest)
     = Some (lit "s3cret")
  /\ aLogonXml bareRequest (lit "s3cret")
     = lit "<xml><Token><UserName></UserName><Password>s3cret</Password><Source></Source></Token></xml>"
  /\ exists o k,
       mieHandler asciiLower asciiUpper wordRegExp deployedWorld bareRequest = Call o k
       /\ readEnvelope (lit "ksoGetStatus") (fetchBody o)
          = Some (aLogonXml bareRequest (lit "s3cret"), None)
       /\ mentions (lit "s3cret") (fetchBody o) = true
       /\ mentions (lit "alice") (fetchBody o) = false.
Proof.
  split; [vm_compute; reflexivity|]. split; [reflexivity|].
  split; [vm_compute; reflexivity|]. split; [vm_compute; reflexivity|].
  eexists _, _. split; [reflexivity|].
  cbn [fetchBody]. repeat split; vm_compute; reflexivity.
Qed.

(** * POST /api/sms/send *)



(** * The extraction refines its specification *)

Lemma keep_false c r : keep false c r = r.
Proof. by destruct r. Qed.

Lemma keepAll_false run r : keepAll false run r = r.
Proof. by destruct r. Qed.

Lemma keep_keepAll cap c run r :
  keep cap c (keepAll cap run r) = keepAll cap (c :: run) r.
Proof. destruct r, cap; reflexivity. Qed.

(** A literal at the front of a pattern consumes exactly that text. *)
Lemma matchAt_litCI p rest s :
  matchAt (litCI p ++ rest) s = stripPrefixCI p s ≫= matchAt rest.
Proof.
  revert s. induction p as [|a p IH]; intros s; [done|].
  cbn [litCI map app matchAt stripPrefixCI].
  destruct s as [|c t]; [done|]. destruct (eqCI a c); [|done].
  rewrite keep_false. apply IH.
Qed.

(** A greedy run whose class excludes every first character the rest can
    accept never gives a character back: it takes the longest run. *)
Lemma quantified_greedy cap p k s :
  (forall c t, p c = true -> k (c :: t) = None) ->
  quantified true cap p k s
  = keepAll cap (takeWhile p s) (k (dropWhile p s)).
Proof.
  intros Hk. induction s as [|c t IH]; cbn [quantified takeWhile dropWhile].
  - by destruct (k []), cap.
  - destruct (p c) eqn:Ec.
    + rewrite IH, keep_keepAll.
      destruct (keepAll cap (c :: takeWhile p t) (k (dropWhile p t))) eqn:E;
        cbn [orElse]; [done|].
      by rewrite Hk.
    + cbn [orElse]. by destruct (k (c :: t)), cap.
Qed.

(** A lazy run of any characters stops at the first place where the rest
    matches. *)
Lemma quantified_lazy_any pat k s :
  (forall t, k t = match stripPrefixCI pat t with
                   | Some _ => Some []
                   | None => None
                   end) ->
  quantified false true anyChar k s = beforeFirstCI pat s.
Proof.
  intros Hk. induction s as [|c t IH]; cbn [quantified beforeFirstCI];
    rewrite Hk.
  - by destruct (stripPrefixCI pat []).
  - destruct (stripPrefixCI pat (c :: t)); cbn [orElse anyChar]; [done|].
    rewrite IH. by destruct (beforeFirstCI pat t).
Qed.

Lemma eqCI_plain a c :
  inRange 65 90 a = false -> inRange 97 122 a = false ->
  eqCI a c = (a =? c).
Proof.
  unfold eqCI, canon, inRange. intros Hu Hl. rewrite Hl.
  destruct (97 <=? c) eqn:E1, (c <=? 122) eqn:E2; cbn [andb]; try done.
  apply N.leb_le in E1, E2.
  assert (H1 : a <> c - 32).
  { intros ->. apply andb_false_iff in Hu as [Hu|Hu]; apply N.leb_gt in Hu; lia. }
  assert (H2 : a <> c).
  { intros ->. apply andb_false_iff in Hl as [Hl|Hl]; apply N.leb_gt in Hl; lia. }
  apply N.eqb_neq in H1, H2. by rewrite H1, H2.
Qed.

Lemma isNot_eqCI a c :
  inRange 65 90 a = false -> inRange 97 122 a = false ->
  isNot a c = true -> eqCI a c = false.
Proof.
  intros Hu Hl. rewrite (eqCI_plain a c Hu Hl). unfold isNot.
  by destruct (a =? c).
Qed.

Lemma afterFirst_dropWhile ch s :
  inRange 65 90 ch = false -> inRange 97 122 ch = false ->
  stripPrefixCI [ch] (dropWhile (isNot ch) s) = afterFirst ch s.
Proof.
  intros Hu Hl. induction s as [|c t IH]; [done|].
  cbn [dropWhile afterFirst]. unfold isNot at 1.
  destruct (ch =? c) eqn:E; cbn [negb]; [|done].
  cbn [stripPrefixCI]. by rewrite (eqCI_plain _ _ Hu Hl), E.
Qed.

Lemma search_firstAt pat f s :
  (forall t, matchAt pat t = f t) -> search pat s = firstAt f s.
Proof.
  intros H. induction s as [|c t IH]; cbn [search firstAt]; rewrite H.
  - by destruct (f []).
  - destruct (f (c :: t)); [done | apply IH].
Qed.

(** Stage one at a fixed position. *)
Lemma matchAt_tagPattern tag s : matchAt (tagPattern tag) s = tagAt tag s.
Proof.
  unfold tagPattern, tagAt. rewrite matchAt_litCI.
  destruct (stripPrefixCI (lit "<" ++ tag) s) as [afterName|]; [|done].
  cbn [mbind option_bind app matchAt].
  rewrite quantified_greedy.
  2:{ intros c t Hc. rewrite matchAt_litCI. change (lit ">") with [62].
      cbn [stripPrefixCI].
      by rewrite (isNot_eqCI 62 c eq_refl eq_refl Hc). }
  rewrite matchAt_litCI. change (lit ">") with [62]. rewrite keepAll_false.
  rewrite <- (afterFirst_dropWhile 62 afterName eq_refl eq_refl).
  destruct (stripPrefixCI [62] (dropWhile (isNot 62) afterName)) as [content|];
    [|done].
  cbn [mbind option_bind app matchAt].
  apply quantified_lazy_any. intros t.
  rewrite <- (app_nil_r (litCI _)), matchAt_litCI.
  by destruct (stripPrefixCI _ t).
Qed.

Lemma quantified_greedy_end cap p s :
  quantified true cap p (matchAt []) s = keepAll cap (takeWhile p s) (Some []).
Proof.
  induction s as [|c t IH]; cbn [quantified takeWhile]; [by destruct cap|].
  destruct (p c); [|by destruct cap].
  rewrite IH, keep_keepAll. reflexivity.
Qed.

(** A greedy plus takes the longest run, which must not be empty. *)
Lemma matchAt_plus cap p rest s :
  (forall c t, p c = true -> matchAt rest (c :: t) = None) ->
  matchAt ((cap, Plus true p) :: rest) s
  = if nonEmpty (takeWhile p s)
    then keepAll cap (takeWhile p s) (matchAt rest (dropWhile p s))
    else None.
Proof.
  intros Hk. destruct s as [|c t]; [done|].
  cbn [matchAt takeWhile dropWhile]. destruct (p c); [|done].
  by rewrite quantified_greedy, keep_keepAll.
Qed.

Lemma matchAt_plus_end cap p s :
  matchAt [(cap, Plus true p)] s
  = if nonEmpty (takeWhile p s)
    then Some (if cap then takeWhile p s else [])
    else None.
Proof.
  destruct s as [|c t]; [done|].
  cbn [matchAt takeWhile]. destruct (p c); [|done].
  rewrite quantified_greedy_end, keep_keepAll. cbn [keepAll nonEmpty].
  destruct cap; [by rewrite app_nil_r | done].
Qed.

(** Optional white space before a literal that is not white space. *)
Lemma matchAt_spaces a p rest s :
  inRange 65 90 a = false -> inRange 97 122 a = false ->
  isWhiteSpace a = false ->
  matchAt ((false, Star true isWhiteSpace) :: litCI (a :: p) ++ rest) s
  = stripPrefixCI (a :: p) (dropWhile isWhiteSpace s) ≫= matchAt rest.
Proof.
  intros Hu Hl Hw. cbn [matchAt]. rewrite quantified_greedy.
  - by rewrite keepAll_false, matchAt_litCI.
  - intros c t Hc. rewrite matchAt_litCI. cbn [stripPrefixCI].
    rewrite (eqCI_plain a c Hu Hl).
    destruct (N.eqb_spec a c) as [->|_]; [congruence | done].
Qed.

Lemma matchAt_keyElement s : matchAt keyElement s = elementAt s.
Proof.
  unfold keyElement, elementAt. rewrite matchAt_litCI.
  destruct (stripPrefixCI (lit "<RequestKey>") s) as [afterOpen|]; [|done].
  cbn [mbind option_bind app]. rewrite matchAt_plus.
  2:{ intros c t Hc. rewrite <- (app_nil_r (litCI _)), matchAt_litCI.
      change (lit "</RequestKey>") with (60 :: lit "/RequestKey>").
      cbn [stripPrefixCI].
      by rewrite (isNot_eqCI 60 c eq_refl eq_refl Hc). }
  rewrite <- (app_nil_r (litCI _)), matchAt_litCI.
  destruct (stripPrefixCI (lit "</RequestKey>") _);
    destruct (nonEmpty _); cbn; by rewrite ?app_nil_r.
Qed.

Lemma matchAt_keyAttribute s : matchAt keyAttribute s = attributeAt s.
Proof.
  unfold keyAttribute, attributeAt. rewrite matchAt_litCI.
  destruct (stripPrefixCI (lit "RequestKey") s) as [afterName|]; [|done].
  cbn [mbind option_bind]. change (lit "=") with [61].
  change ([(false, Star true isWhiteSpace)] ++ litCI [61] ++ ?r)
    with ((false, Star true isWhiteSpace) :: litCI [61] ++ r).
  rewrite matchAt_spaces by reflexivity.
  destruct (stripPrefixCI [61] (dropWhile isWhiteSpace afterName))
    as [afterEquals|]; [|done].
  cbn [mbind option_bind].
  change ([(false, Star true isWhiteSpace)] ++ litCI [34] ++ ?r)
    with ((false, Star true isWhiteSpace) :: litCI [34] ++ r).
  rewrite matchAt_spaces by reflexivity.
  destruct (stripPrefixCI [34] (dropWhile isWhiteSpace afterEquals))
    as [afterQuote|]; [|done].
  cbn [mbind option_bind app]. rewrite matchAt_plus.
  2:{ intros c t Hc. rewrite <- (app_nil_r (litCI _)), matchAt_litCI.
      cbn [stripPrefixCI].
      by rewrite (isNot_eqCI 34 c eq_refl eq_refl Hc). }
  rewrite <- (app_nil_r (litCI _)), matchAt_litCI.
  destruct (stripPrefixCI [34] (dropWhile (isNot 34) afterQuote));
    destruct (nonEmpty _); cbn; by rewrite ?app_nil_r.
Qed.

Lemma whiteSpace_not_keyChar c :
  isWhiteSpace c = true -> isKeyChar c = false.
Proof.
  unfold isWhiteSpace, isKeyChar, inRange. intros H.
  apply not_true_is_false. intros K.
  rewrite ?orb_true_iff, ?andb_true_iff, ?N.leb_le, ?N.eqb_eq in H.
  rewrite ?orb_true_iff, ?andb_true_iff, ?N.leb_le, ?N.eqb_eq in K. lia.
Qed.

Lemma matchAt_keyColon s : matchAt keyColon s = colonAt s.
Proof.
  unfold keyColon, colonAt. rewrite matchAt_litCI.
  destruct (stripPrefixCI (lit "RequestKey") s) as [afterName|]; [|done].
  cbn [mbind option_bind]. change (lit ":") with [58].
  change ([(false, Star true isWhiteSpace)] ++ litCI [58] ++ ?r)
    with ((false, Star true isWhiteSpace) :: litCI [58] ++ r).
  rewrite matchAt_spaces by reflexivity.
  destruct (stripPrefixCI [58] (dropWhile isWhiteSpace afterName))
    as [afterColon|]; [|done].
  cbn [mbind option_bind app matchAt].
  rewrite quantified_greedy.
  2:{ intros c t Hc. cbn [matchAt].
      by rewrite (whiteSpace_not_keyChar c Hc). }
  rewrite keepAll_false.
  apply (matchAt_plus_end true isKeyChar).
Qed.

(** The three forms never give an empty value. *)
Lemma firstAt_nonEmpty f s :
  (forall t v, f t = Some v -> v <> []) -> firstAt f s <> Some [].
Proof.
  intros Hf. induction s as [|a s IH]; cbn [firstAt].
  - destruct (f []) eqn:E; [|done]. intros [= ->]. by apply Hf in E.
  - destruct (f (a :: s)) eqn:E; [|done]. intros [= ->]. by apply Hf in E.
Qed.

Ltac case_form :=
  unfold mbind, option_bind;
  repeat match goal with
         | |- context [match stripPrefixCI ?p ?x with _ => _ end] =>
             destruct (stripPrefixCI p x); [|done]
         end;
  match goal with
  | |- context [nonEmpty ?v] => destruct v; cbn [nonEmpty]; congruence
  end.

Lemma elementAt_nonEmpty s v : elementAt s = Some v -> v <> [].
Proof. unfold elementAt. case_form. Qed.

Lemma attributeAt_nonEmpty s v : attributeAt s = Some v -> v <> [].
Proof. unfold attributeAt. case_form. Qed.

Lemma colonAt_nonEmpty s v : colonAt s = Some v -> v <> [].
Proof. unfold colonAt. case_form. Qed.

(** C5 (amended).  The extraction is two-stage and best-effort.  Stage one, for every
    response text and every tag name of word characters (for which the
    RegExp constructor gives [tagPattern]), returns the inner text of the
    first [<tag ...>...</tag>] (case-insensitive, the inner text ending at
    the first end tag, any characters including line breaks inside), or
    nothing when there is no such match.  Stage two tries the element form,
    then the attribute form, then the colon form on the inner text and
    returns the first match trimmed, or nothing.  The reply that wraps
    [<RequestKey>ABC123</RequestKey>] in [FooResult] gives ABC123, and the
    attribute form alone gives XYZ. *)
Theorem extraction_two_stage (newRegExp : regexp_constructor)
    (xml tagName : jsstring) (text : option jsstring) :
  (forall name, Forall (fun c => isWordChar c = true) name ->
                newRegExp name = inr (search (tagPattern name))) ->
  Forall (fun c => isWordChar c = true) tagName ->
  extractTagText newRegExp xml tagName = Returned (tagTextSpec xml tagName)
  /\ extractRequestKey text = requestKeySpec text
  /\ (exists inner,
        extractTagText newRegExp
          (lit "<FooResult>...<RequestKey>ABC123</RequestKey>...</FooResult>")
          (lit "FooResult")
        = Returned inner
        /\ extractRequestKey inner = Some (lit "ABC123"))
  /\ extractRequestKey
       (Some (lit "RequestKey=" ++ 34 :: lit "XYZ" ++ [34]))
     = Some (lit "XYZ").
Proof.
  intros Hre Htag.
  assert (Hone : forall x name, Forall (fun c => isWordChar c = true) name ->
            extractTagText newRegExp x name = Returned (tagTextSpec x name)).
  { intros x name Hname. unfold extractTagText, tagTextSpec.
    rewrite (Hre name Hname).
    rewrite (search_firstAt _ (tagAt name)) by apply matchAt_tagPattern.
    destruct x as [|c x]; [|done].
    cbn [firstAt]. unfold tagAt. by destruct name. }
  split; [by apply Hone|]. split; [|split].
  - unfold extractRequestKey, requestKeySpec.
    destruct text as [[|c t]|]; try done.
    unfold patterns. cbn [firstMatch].
    rewrite (search_firstAt _ elementAt) by apply matchAt_keyElement.
    rewrite (search_firstAt _ attributeAt) by apply matchAt_keyAttribute.
    rewrite (search_firstAt _ colonAt) by apply matchAt_keyColon.
    pose proof (firstAt_nonEmpty _ (c :: t) elementAt_nonEmpty) as H1.
    pose proof (firstAt_nonEmpty _ (c :: t) attributeAt_nonEmpty) as H2.
    pose proof (firstAt_nonEmpty _ (c :: t) colonAt_nonEmpty) as H3.
    destruct (firstAt elementAt (c :: t)) as [[|a v]|]; [done|done|].
    destruct (firstAt attributeAt (c :: t)) as [[|a v]|]; [done|done|].
    by destruct (firstAt colonAt (c :: t)) as [[|a v]|].
  - eexists. split.
    + apply Hone. repeat constructor.
    + vm_compute. reflexivity.
  - vm_compute. reflexivity.
Qed.

(** * The theorems at concrete inputs *)

Lemma mie_argument_iff_allowed_witness :
  exists o k,
    mieHandler asciiLower asciiUpper wordRegExp sampleWorld (sampleRequest "ksoPutBranch")
      = Call o k
    /\ exists arg,
         aArgument asciiUpper sampleWorld (sampleRequest "ksoPutBranch")
         = Returned arg
         /\ readEnvelope (lit "ksoPutBranch") (fetchBody o)
            = Some (aLogonXml (sampleRequest "ksoPutBranch") (lit "pw"),
                    Some arg).
Proof.
  eexists _, _. split; [reflexivity|].
  destruct (mie_argument_iff_allowed asciiLower asciiUpper wordRegExp sampleWorld
              (sampleRequest "ksoPutBranch") _ _ eq_refl)
    as (m & p & arg & Hm & Hp & Ha & _ & Hread & _).
  injection Hm as <-. injection Hp as <-. exists arg. split; [exact Ha|].
  exact Hread.
Defined.

Lemma mie_vendor_failure_witness :
  ok_status 500 = false
  /\ exists fields,
       mieReply wordRegExp (lit "ksoPutRequest") (lit "https://vendor.example/soap")
         (FetchResponse 500 (lit "Internal Server Error"))
       = Response 502 (Json fields)
       /\ fields !! "error" = Some (JString (lit "MIE SOAP HTTP 500"))
       /\ fields !! "responseSnippet"
          = Some (JString (lit "Internal Server Error")).
Proof.
  split; [reflexivity|].
  destruct (mie_vendor_failure asciiLower asciiUpper wordRegExp sampleWorld
              (sampleRequest "ksoPutRequest") _ _ 500
              (lit "Internal Server Error") eq_refl eq_refl)
    as (m & u & fields & Hm & Hu & Hk & _ & He & _ & _ & Hs & _).
  exists fields. split; [exact Hk|]. split; [exact He | exact Hs].
Defined.

Lemma mie_missing_input_witness :
  exists e h,
    mieHandler asciiLower asciiUpper wordRegExp sampleWorld bareRequest
    = Respond (Response 400 (Json (<["ok" := JBool false]>
                                   (<["error" := JString e]>
                                   (<["hint" := JString h]> ∅)))))
    /\ mentions (lit "secrets.local.json") h = true.
Proof.
  destruct (mie_missing_input asciiLower asciiUpper wordRegExp sampleWorld bareRequest)
    as (_ & _ & H).
  destruct (H eq_refl eq_refl eq_refl eq_refl eq_refl eq_refl)
    as (e & h & Hr & _ & _ & Hh).
  by exists e, h.
Defined.

Lemma mie_reference_is_requestKey_witness :
  ok_status 200 = true
  /\ exists fields,
       mieReply wordRegExp (lit "ksoPutRequest")
         (lit "https://vendor.example/soap")
         (FetchResponse 200
            (lit "<ksoPutRequestResult><RequestKey> 4711 </RequestKey></ksoPutRequestResult>"))
       = Response 200 (Json fields)
       /\ fields !! "reference" = fields !! "requestKey"
       /\ fields !! "requestKey" = Some (JString (lit "4711")).
Proof.
  split; [reflexivity|].
  destruct (mie_reference_is_requestKey asciiLower asciiUpper wordRegExp
              sampleWorld (sampleRequest "ksoPutRequest") _ _ 200
              (lit "<ksoPutRequestResult><RequestKey> 4711 </RequestKey></ksoPutRequestResult>")
              eq_refl eq_refl)
    as (m & Hm & Hfields & Hreturns & _).
  injection Hm as <-.
  destruct (Hreturns _ eq_refl) as (fields & Hk).
  exists fields. split; [exact Hk|].
  destruct (Hfields fields Hk) as (resultText & Hres & Heq & Hkey).
  split; [exact Heq|]. vm_compute in Hres. injection Hres as <-.
  rewrite Hkey. vm_compute. reflexivity.
Defined.

Lemma mie_envelope_independent_witness :
  hasArgument asciiLower (lit "ksoGetStatus") = false
  /\ match mieHandler asciiLower asciiUpper wordRegExp sampleWorld
             (sampleRequest "ksoGetStatus"),
           mieHandler asciiLower asciiUpper wordRegExp (World ∅ None 5 (lit "later"))
             otherRequest with
     | Call o1 k1, Call o2 k2 =>
         o1 = o2 /\ fetchBody o1 = fetchBody o2 /\ k1 = k2
     | Respond a1, Respond a2 =>
         a1 = a2 \/ (status a1 = 500 /\ status a2 = 500)
     | Respond a1, Call _ _ =>
         status a1 = 500
         /\ exists message,
              aArgument asciiUpper sampleWorld (sampleRequest "ksoGetStatus")
              = Thrown message
     | Call _ _, Respond a2 =>
         status a2 = 500
         /\ exists message,
              aArgument asciiUpper (World ∅ None 5 (lit "later")) otherRequest
              = Thrown message
     end.
Proof.
  split; [reflexivity|].
  apply (mie_envelope_independent asciiLower asciiUpper wordRegExp
           sampleWorld (World ∅ None 5 (lit "later"))
           (sampleRequest "ksoGetStatus") otherRequest);
    try reflexivity.
  intros m [= <-]. reflexivity.
Defined.


Lemma extraction_two_stage_witness :
  Forall (fun c => isWordChar c = true) (lit "FooResult")
  /\ extractTagText wordRegExp (lit "<a><FooResult id=1>x</FooResult>")
       (lit "FooResult")
     = Returned
         (tagTextSpec (lit "<a><FooResult id=1>x</FooResult>") (lit "FooResult")).
Proof.
  assert (H : Forall (fun c => isWordChar c = true) (lit "FooResult")).
  { repeat constructor. }
  split; [exact H|].
  apply (extraction_two_stage wordRegExp
           (lit "<a><FooResult id=1>x</FooResult>") (lit "FooResult") None
           (fun _ _ => eq_refl) H).
Defined.

(** * Inputs at which the specification does not hold as written *)

Lemma nameAtoms_word (name : jsstring) :
  Forall (fun c => isWordChar c = true) name -> nameAtoms name = litCI name.
Proof.
  induction 1 as [|c name Hc _ IH]; [done|].
  unfold nameAtoms, litCI in *. cbn [map]. rewrite IH. do 3 f_equal.
  destruct (c =? 46) eqn:E; [|done]. apply N.eqb_eq in E. by subst c.
Qed.

(** On tag names of word characters [dottedRegExp] gives [tagPattern], as
    the statement of C5 asks of the constructor. *)
Lemma dottedRegExp_word (name : jsstring) :
  Forall (fun c => isWordChar c = true) name ->
  dottedRegExp name = inr (search (tagPattern name)).
Proof.
  intros H. unfold dottedRegExp, dottedPattern, tagPattern.
  rewrite (nameAtoms_word name H). unfold litCI.
  by rewrite !map_app, <- !app_assoc.
Qed.

(** C5, as it is written, at a tag name with a dot.  The tag name is text
    of the regular expression, not literal text: for the tag name
    [kso.PutResult] the reply [<ksoXPutResult>x</ksoXPutResult>], which
    holds no element of that name, gives [x], where the claim has no
    match. *)
Lemma extraction_tag_is_pattern :
  extractTagText dottedRegExp (lit "<ksoXPutResult>x</ksoXPutResult>")
    (lit "kso.PutResult")
  = Returned (Some (lit "x"))
  /\ tagTextSpec (lit "<ksoXPutResult>x</ksoXPutResult>") (lit "kso.PutResult")
     = None.
Proof. split; vm_compute; reflexivity. Qed.


(** C10, as it is written, at a [null] payload.  Two requests for a method
    off the allow-list that differ in the payload alone, [null] in one and
    absent in the other: the first is answered 500 and sends no envelope,
    the second makes its outbound call. *)
Lemma mie_null_payload_stops :
  hasArgument asciiLower (lit "ksoGetStatus") = false
  /\ mieHandler asciiLower asciiUpper wordRegExp deployedWorld
       nullPayloadRequest
     = Respond
         (Response 500
            (Json (<["ok" := JBool false]>
                   (<["error" := JString NULL_PAYLOAD]> ∅))))
  /\ exists o k,
       mieHandler asciiLower asciiUpper wordRegExp deployedWorld bareRequest
       = Call o k.
Proof.
  split; [reflexivity|]. split; [reflexivity|]. by eexists _, _.
Qed.

(** * Further properties of the number normaliser *)

Lemma formatSmsPortalNumber_digits (phone : jsstring) :
  formatSmsPortalNumber (Some phone) = normalise (List.filter isDigit phone).
Proof.
  unfold formatSmsPortalNumber, normalise.
  destruct phone as [|c t]; [done|].
  change (jsOr (Some (c :: t)) None) with (Some (c :: t)).
  cbv beta iota zeta. by rewrite replaceClass_strip.
Qed.

Lemma filter_digits_id (d : jsstring) :
  Forall (fun c => isDigit c = true) d -> List.filter isDigit d = d.
Proof.
  induction 1 as [|c d Hc _ IH]; [done|]. cbn [List.filter].
  by rewrite Hc, IH.
Qed.

Lemma filter_digits_Forall (s : jsstring) :
  Forall (fun c => isDigit c = true) (List.filter isDigit s).
Proof.
  induction s as [|c s IH]; cbn [List.filter]; [constructor|].
  destruct (isDigit c) eqn:E; [by constructor | done].
Qed.

Lemma normalise_digits (d : jsstring) :
  Forall (fun c => isDigit c = true) d ->
  Forall (fun c => isDigit c = true) (normalise d).
Proof.
  intros Hd. unfold normalise. destruct d as [|c d]; [constructor|].
  destruct (startsWith _ _); [done|].
  change (lit "27") with [50; 55]. cbn [app drop].
  destruct (startsWith _ _).
  - repeat (constructor; [reflexivity|]). by inversion Hd.
  - destruct (_ =? _)%nat; [|done].
    repeat (constructor; [reflexivity|]). exact Hd.
Qed.

Lemma normalise_no_leading_zero (d : jsstring) :
  startsWith (lit "0") (normalise d) = false.
Proof.
  unfold normalise. destruct d as [|c d]; [done|].
  destruct (startsWith (lit "27") (c :: d)) eqn:E27.
  - change (lit "27") with [50; 55] in E27. change (lit "0") with [48].
    cbn [startsWith] in *. destruct (N.eqb_spec 50 c) as [<-|]; done.
  - destruct (startsWith (lit "0") (c :: d)) eqn:E0; [reflexivity|].
    destruct (_ =? _)%nat; [reflexivity | exact E0].
Qed.

Lemma normalise_idempotent (d : jsstring) : normalise (normalise d) = normalise d.
Proof.
  destruct d as [|c d]; [done|]. unfold normalise at 2 3.
  destruct (startsWith (lit "27") (c :: d)) eqn:E27.
  - unfold normalise. by rewrite E27.
  - destruct (startsWith (lit "0") (c :: d)) eqn:E0; [reflexivity|].
    destruct (length (c :: d) =? 9)%nat eqn:E9; [reflexivity|].
    unfold normalise. by rewrite E27, E0, E9.
Qed.

Lemma formatSmsPortalNumber_normalise (phone : option jsstring) :
  exists d, Forall (fun c => isDigit c = true) d
            /\ formatSmsPortalNumber phone = normalise d.
Proof.
  destruct phone as [s|].
  - exists (List.filter isDigit s). split; [apply filter_digits_Forall|].
    apply formatSmsPortalNumber_digits.
  - by exists [].
Qed.

(** X1.  Whatever the input, the normalised number consists of digits only
    and never starts with 0; it depends on the digits of the input alone;
    and normalising it once more changes nothing. *)
Theorem formatSmsPortalNumber_normal_form (phone : option jsstring) :
  let r := formatSmsPortalNumber phone in
  Forall (fun c => isDigit c = true) r
  /\ startsWith (lit "0") r = false
  /\ formatSmsPortalNumber (Some r) = r
  /\ (forall s s',
        List.filter isDigit s = List.filter isDigit s' ->
        formatSmsPortalNumber (Some s) = formatSmsPortalNumber (Some s')).
Proof.
  cbv zeta.
  destruct (formatSmsPortalNumber_normalise phone) as (d & Hd & ->).
  split; [by apply normalise_digits|].
  split; [apply normalise_no_leading_zero|].
  split.
  - rewrite formatSmsPortalNumber_digits, filter_digits_id
      by by apply normalise_digits.
    apply normalise_idempotent.
  - intros s s' Hs. by rewrite !formatSmsPortalNumber_digits, Hs.
Qed.

(** X2.  The usual notations of one South African number agree: when the
    digits of the input are the nine national digits [n], or [n] after a
    leading 0, or [n] after 27, the result is 27 followed by [n], whatever
    punctuation the input has.  (For the bare national digits this needs
    that [n] itself does not begin with 27 or 0.) *)
Theorem formatSmsPortalNumber_notations (s n : jsstring) :
  length n = 9%nat ->
  startsWith (lit "27") n = false ->
  startsWith (lit "0") n = false ->
  List.filter isDigit s = n
  \/ List.filter isDigit s = lit "0" ++ n
  \/ List.filter isDigit s = lit "27" ++ n ->
  formatSmsPortalNumber (Some s) = lit "27" ++ n.
Proof.
  intros Hlen H27 H0 Hs. rewrite formatSmsPortalNumber_digits.
  destruct Hs as [-> | [-> | ->]]; unfold normalise.
  - destruct n as [|c n]; [done|]. rewrite H27, H0.
    apply Nat.eqb_eq in Hlen. by rewrite Hlen.
  - reflexivity.
  - reflexivity.
Qed.

Lemma formatSmsPortalNumber_notations_witness :
  formatSmsPortalNumber (Some (lit "+27 (82) 123-4567")) = lit "27821234567"
  /\ formatSmsPortalNumber (Some (lit "082 123 4567")) = lit "27821234567"
  /\ formatSmsPortalNumber (Some (lit "82-123-4567")) = lit "27821234567".
Proof.
  split; [|split];
    apply (formatSmsPortalNumber_notations _ (lit "821234567"));
    try reflexivity.
  - right. right. reflexivity.
  - right. left. reflexivity.
  - left. reflexivity.
Defined.

(** * Credentials *)

Lemma firstNonEmpty_jsOr (a : option jsstring) (rest : list (option jsstring)) :
  firstNonEmpty (a :: rest) = if truthy a then a else firstNonEmpty rest.
Proof. by destruct a as [[|c s]|]. Qed.

Lemma firstNonEmpty_nonEmpty (l : list (option jsstring)) :
  firstNonEmpty l <> Some [].
Proof. induction l as [|[[|c s]|] l IH]; done. Qed.

Lemma jsOr_chain3 (a b c : option jsstring) :
  (let v := jsOr (jsOr a b) c in if truthy v then v else None)
  = firstNonEmpty [a; b; c].
Proof.
  cbv zeta. unfold jsOr.
  destruct a as [[|? ?]|], b as [[|? ?]|], c as [[|? ?]|]; reflexivity.
Qed.

Lemma getSmsCredentials_first (w : world) :
  getSmsCredentials w
  = (firstNonEmpty [env w !! "SMS_CLIENT_ID"; secret w "SMS_CLIENT_ID";
                    secret w "sms_client_id"],
     firstNonEmpty [env w !! "SMS_CLIENT_SECRET"; secret w "SMS_CLIENT_SECRET";
                    secret w "sms_client_secret"]).
Proof. unfold getSmsCredentials. cbv zeta. by rewrite !jsOr_chain3. Qed.

(** * The generic forwarder *)

Lemma splitFirst_at_front (p : N) (ps rest : jsstring) :
  splitFirst (p :: ps) ((p :: ps) ++ rest) = Some ([], rest).
Proof.
  change ((p :: ps) ++ rest) with (p :: (ps ++ rest)). cbn [splitFirst].
  change (p :: (ps ++ rest)) with ((p :: ps) ++ rest).
  by rewrite startsWith_app, drop_app_length.
Qed.

Lemma forwardSmsRequest_call {B} (w : world) (req : forward_request B)
    (override : option jsstring) o k :
  forwardSmsRequest w req override = Call o k ->
  exists id key,
    getSmsCredentials w = (Some id, Some key)
    /\ o = ForwardOutbound
             (SMS_ORIGIN ++ match override with
                            | Some path => path
                            | None => replaceFirst (lit "/api/sms") [] (reqUrl req)
                            end)
             (reqMethod req)
             [("Content-Type", lit "application/json");
              ("Authorization",
               lit "Basic " ++ base64 (utf8Encode (id ++ lit ":" ++ key)))]
             (if bool_decide (reqMethod req = lit "GET") then None
              else Some (reqBody req))
    /\ k = smsReply.
Proof.
  unfold forwardSmsRequest.
  destruct (getSmsCredentials w) as [[id|] [key|]]; try done.
  intros [= <- <-]. by exists id, key.
Qed.

(** X3.  [forwardSms] makes an outbound call exactly when both the client id
    and the client secret resolve to a non-empty value, each taken from the
    environment first, then from the secrets file under the upper-case and
    the lower-case key; otherwise it answers 400 with [ok: false], an error
    and a hint, whatever the method, the URL and the body of the request
    are. *)
Theorem forwardSms_needs_credentials {B} (w : world) (req : forward_request B)
    (override : option jsstring) :
  let id := firstNonEmpty [env w !! "SMS_CLIENT_ID"; secret w "SMS_CLIENT_ID";
                           secret w "sms_client_id"] in
  let key := firstNonEmpty [env w !! "SMS_CLIENT_SECRET";
                            secret w "SMS_CLIENT_SECRET";
                            secret w "sms_client_secret"] in
  match forwardSmsRequest w req override with
  | Call _ _ => (exists i, id = Some i /\ i <> [])
                /\ (exists s, key = Some s /\ s <> [])
  | Respond r =>
      (id = None \/ key = None)
      /\ exists fields,
           r = Response 400 (Json fields)
           /\ fields !! "ok" = Some (JBool false)
           /\ is_Some (fields !! "error") /\ is_Some (fields !! "hint")
  end.
Proof.
  cbv zeta. unfold forwardSmsRequest. rewrite getSmsCredentials_first.
  pose proof (firstNonEmpty_nonEmpty
                [env w !! "SMS_CLIENT_ID"; secret w "SMS_CLIENT_ID";
                 secret w "sms_client_id"]) as Hi.
  pose proof (firstNonEmpty_nonEmpty
                [env w !! "SMS_CLIENT_SECRET"; secret w "SMS_CLIENT_SECRET";
                 secret w "sms_client_secret"]) as Hs.
  destruct (firstNonEmpty [env w !! "SMS_CLIENT_ID"; _; _]) as [i|];
    destruct (firstNonEmpty [env w !! "SMS_CLIENT_SECRET"; _; _]) as [s|].
  - split; [exists i | exists s]; split; try done; by intros ->.
  - split; [by right|]. eexists. split; [reflexivity|]. by repeat split.
  - split; [by left|]. eexists. split; [reflexivity|]. by repeat split.
  - split; [by left|]. eexists. split; [reflexivity|]. by repeat split.
Qed.

Lemma splitFirst_least pat s x y :
  splitFirst pat s = Some (x, y) ->
  forall a b, s = a ++ pat ++ b -> (length x <= length a)%nat.
Proof.
  revert x. induction s as [|c t IH]; intros x; cbn [splitFirst].
  - destruct (startsWith pat []); [|done]. intros [= <- <-] a b _.
    cbn [length]. lia.
  - destruct (startsWith pat (c :: t)) eqn:E.
    + intros [= <- <-] a b _. cbn [length]. lia.
    + destruct (splitFirst pat t) as [[x' y']|]; [|done].
      intros [= <- <-] a b Hab. destruct a as [|a0 a].
      * assert (startsWith pat (c :: t) = true); [|congruence].
        apply startsWith_true. by exists b.
      * injection Hab as -> Hab. cbn [length].
        specialize (IH x' eq_refl a b Hab). lia.
Qed.

(** The first occurrence: the one with the shortest text before it. *)
Lemma splitFirst_first pat s a b :
  s = a ++ pat ++ b ->
  (forall a' b', s = a' ++ pat ++ b' -> (length a <= length a')%nat) ->
  splitFirst pat s = Some (a, b).
Proof.
  intros Hs Hfirst.
  destruct (splitFirst pat s) as [[x y]|] eqn:E.
  - pose proof (splitFirst_least _ _ _ _ E a b Hs) as H1.
    apply splitFirst_Some in E.
    pose proof (Hfirst x y E) as H2.
    assert (Hlen : length a = length x) by lia.
    rewrite Hs in E. apply app_inj_1 in E as [-> E]; [|done].
    apply app_inv_head in E. by subst.
  - pose proof (proj1 (splitFirst_None pat s) E a b) as Hne. by destruct Hne.
Qed.

(** X4.  The URL that [forwardSms] hands to [fetch] is the text
    [https://rest.smsportal.com] directly followed by a path: with a path
    override the path is the override, whatever URL was requested; without
    one it is the requested URL with its first [/api/sms] removed, wherever
    that stands (what is before it and what is after it stay, later
    occurrences too), and the requested URL itself when it holds no
    [/api/sms].  The method is passed on, and the request body is handed to
    [fetch] for every method other than [GET]. *)
Theorem forwardSms_target {B} (w : world) (req : forward_request B)
    (override : option jsstring) o k :
  forwardSmsRequest w req override = Call o k ->
  (forall path, override = Some path -> forwardUrl o = SMS_ORIGIN ++ path)
  /\ (forall a b, override = None ->
        reqUrl req = a ++ lit "/api/sms" ++ b ->
        (forall a' b', reqUrl req = a' ++ lit "/api/sms" ++ b' ->
                       (length a <= length a')%nat) ->
        forwardUrl o = SMS_ORIGIN ++ a ++ b)
  /\ (override = None ->
      (forall a b, reqUrl req <> a ++ lit "/api/sms" ++ b) ->
      forwardUrl o = SMS_ORIGIN ++ reqUrl req)
  /\ forwardMethod o = reqMethod req
  /\ (reqMethod req = lit "GET" -> forwardBody o = None)
  /\ (reqMethod req <> lit "GET" -> forwardBody o = Some (reqBody req)).
Proof.
  intros H. apply forwardSmsRequest_call in H as (id & key & _ & -> & ->).
  cbn [forwardUrl forwardMethod forwardBody].
  split; [by intros path ->|].
  split.
  { intros a b -> Hs Hfirst. unfold replaceFirst.
    by rewrite (splitFirst_first _ _ a b Hs Hfirst). }
  split.
  { intros -> Hno. unfold replaceFirst.
    by rewrite (proj2 (splitFirst_None (lit "/api/sms") (reqUrl req)) Hno). }
  split; [done|]. split.
  - intros ->. by rewrite bool_decide_eq_true_2.
  - intros Hm. by rewrite bool_decide_eq_false_2.
Qed.

Lemma forwardSms_target_witness :
  exists o k,
    smsPassthrough smsWorld
      (ForwardRequest (lit "PUT") (lit "/API/SMS/api/sms/v1?x=/api/sms")
         (lit "{}"))
    = Call o k
    /\ forwardUrl o = lit "https://rest.smsportal.com/API/SMS/v1?x=/api/sms"
    /\ forwardBody o = Some (lit "{}").
Proof.
  eexists _, _. split; [reflexivity|].
  destruct (forwardSms_target smsWorld
              (ForwardRequest (lit "PUT")
                 (lit "/API/SMS/api/sms/v1?x=/api/sms") (lit "{}"))
              None _ _ eq_refl)
    as (_ & Hrest & _ & _ & _ & Hbody).
  split.
  - apply (Hrest (lit "/API/SMS") (lit "/v1?x=/api/sms")); [reflexivity..|].
    intros a' b' Hs. cbn [reqUrl] in Hs.
    destruct a' as [|c0 [|c1 [|c2 [|c3 [|c4 [|c5 [|c6 [|c7 a']]]]]]]];
      vm_compute in Hs; first [discriminate Hs | simpl; lia].
  - apply Hbody. vm_compute. discriminate.
Defined.

(** * The Authorization header *)

Ltac div_lia := zify; Z.to_euclidean_division_equations; lia.

Lemma base64Index_Char (i : N) : i < 64 -> base64Index (base64Char i) = Some i.
Proof.
  intros Hi. unfold base64Char, base64Index, inRange.
  repeat match goal with
         | |- context [?a <? ?b] => destruct (N.ltb_spec a b)
         | |- context [?a <=? ?b] => destruct (N.leb_spec a b)
         | |- context [?a =? ?b] => destruct (N.eqb_spec a b)
         end; cbn [andb]; try lia; f_equal; lia.
Qed.

Lemma base64_group (a b c : N) :
  a < 256 -> b < 256 -> c < 256 ->
  a / 4 < 64 /\ (a mod 4) * 16 + b / 16 < 64
  /\ (b mod 16) * 4 + c / 64 < 64 /\ c mod 64 < 64
  /\ (a mod 4) * 16 < 64 /\ (b mod 16) * 4 < 64
  /\ a / 4 * 4 + ((a mod 4) * 16 + b / 16) / 16 = a
  /\ (((a mod 4) * 16 + b / 16) mod 16) * 16 + ((b mod 16) * 4 + c / 64) / 4 = b
  /\ (((b mod 16) * 4 + c / 64) mod 4) * 64 + c mod 64 = c
  /\ a / 4 * 4 + ((a mod 4) * 16) / 16 = a
  /\ (((a mod 4) * 16 + b / 16) mod 16) * 16 + ((b mod 16) * 4) / 4 = b.
Proof. intros Ha Hb Hc. repeat split; div_lia. Qed.

Lemma base64Decode_base64 (bytes : list N) :
  Forall (fun b => b < 256) bytes -> base64Decode (base64 bytes) = Some bytes.
Proof.
  remember (length bytes) as n eqn:Hn. revert bytes Hn.
  induction n as [n IH] using lt_wf_ind. intros bytes -> Hb.
  destruct bytes as [|a [|b [|c rest]]]; [done| | |].
  - inversion_clear Hb as [|? ? Ha _].
    destruct (base64_group a 0 0 Ha) as (H1 & _ & _ & _ & H2 & _ & _ & _ & _ & E & _);
      [lia | lia |].
    cbn [base64 base64Decode]. rewrite !base64Index_Char by done.
    change (base64Index 61) with (@None N). cbn. by rewrite E.
  - inversion_clear Hb as [|? ? Ha Hb']. inversion_clear Hb' as [|? ? Hb _].
    destruct (base64_group a b 0 Ha Hb)
      as (H1 & H2 & _ & _ & _ & H3 & E1 & _ & _ & _ & E2); [lia|].
    cbn [base64 base64Decode]. rewrite !base64Index_Char by done.
    change (base64Index 61) with (@None N). cbn. by rewrite E1, E2.
  - inversion_clear Hb as [|? ? Ha Hb']. inversion_clear Hb' as [|? ? Hb Hc'].
    inversion_clear Hc' as [|? ? Hc Hrest].
    destruct (base64_group a b c Ha Hb Hc)
      as (H1 & H2 & H3 & H4 & _ & _ & E1 & E2 & E3 & _).
    cbn [base64 base64Decode]. rewrite !base64Index_Char by done.
    rewrite (IH (length rest)) by (simpl; lia || done).
    by rewrite E1, E2, E3.
Qed.

Lemma utf8Encode_bytes (s : jsstring) :
  Forall (fun c => c < 65536) s -> Forall (fun b => b < 256) (utf8Encode s).
Proof.
  remember (length s) as n eqn:Hn. revert s Hn.
  induction n as [n IH] using lt_wf_ind. intros s -> Hs.
  destruct s as [|c t]; [constructor|].
  inversion_clear Hs as [|? ? Hc Ht].
  assert (IHt : Forall (fun b => b < 256) (utf8Encode t)).
  { apply (IH (length t)); [simpl; lia | done | done]. }
  cbn [utf8Encode]. unfold inRange.
  destruct (N.ltb_spec c 128); [constructor; [div_lia | done]|].
  destruct (N.ltb_spec c 2048); [repeat (constructor; [div_lia|]); done|].
  destruct (N.leb_spec 55296 c), (N.leb_spec c 56319); cbn [andb].
  - destruct t as [|d t']; [repeat (constructor; [div_lia|]); constructor|].
    inversion_clear Ht as [|? ? Hd Ht'].
    destruct (N.leb_spec 56320 d), (N.leb_spec d 57343); cbn [andb];
      try (repeat (constructor; [div_lia|]); exact IHt).
    repeat (constructor; [div_lia|]).
    apply (IH (length t')); [simpl; lia | done | done].
  - destruct (N.leb_spec 56320 c), (N.leb_spec c 57343); cbn [andb];
      repeat (constructor; [div_lia|]); exact IHt.
  - destruct (N.leb_spec 56320 c), (N.leb_spec c 57343); cbn [andb];
      repeat (constructor; [div_lia|]); exact IHt.
  - destruct (N.leb_spec 56320 c), (N.leb_spec c 57343); cbn [andb];
      repeat (constructor; [div_lia|]); exact IHt.
Qed.

Lemma utf8Encode_ascii (s : jsstring) :
  Forall (fun c => c < 128) s -> utf8Encode s = s.
Proof.
  induction 1 as [|c t Hc _ IH]; [done|]. cbn [utf8Encode].
  destruct (N.ltb_spec c 128); [by rewrite IH | lia].
Qed.

(** X5.  Every forwarded request carries the header
    [Authorization: Basic ...] whose payload is the base64 text of the UTF-8
    bytes of the resolved client id, a colon and the resolved client secret:
    decoding the payload gives these bytes back, which for ASCII
    credentials are the characters of [id:secret] themselves.  It also
    carries [Content-Type: application/json]. *)
Theorem forwardSms_authorization {B} (w : world) (req : forward_request B)
    (override : option jsstring) o k :
  forwardSmsRequest w req override = Call o k ->
  exists id key payload,
    getSmsCredentials w = (Some id, Some key)
    /\ header "Authorization" (forwardHeaders o) = Some (lit "Basic " ++ payload)
    /\ header "Content-Type" (forwardHeaders o) = Some (lit "application/json")
    /\ (Forall (fun c => c < 65536) (id ++ key) ->
        base64Decode payload = Some (utf8Encode (id ++ lit ":" ++ key)))
    /\ (Forall (fun c => c < 128) (id ++ key) ->
        base64Decode payload = Some (id ++ lit ":" ++ key)).
Proof.
  intros H. apply forwardSmsRequest_call in H as (id & key & Hc & -> & _).
  exists id, key, (base64 (utf8Encode (id ++ lit ":" ++ key))).
  split; [done|]. split; [reflexivity|]. split; [reflexivity|].
  assert (Hb : Forall (fun c => c < 65536) (id ++ key) ->
               base64Decode (base64 (utf8Encode (id ++ lit ":" ++ key)))
               = Some (utf8Encode (id ++ lit ":" ++ key))).
  { intros Hu. apply base64Decode_base64, utf8Encode_bytes.
    apply Forall_app in Hu as [Hi Hk].
    apply Forall_app. split; [done|]. constructor; [reflexivity | done]. }
  split; [exact Hb|].
  intros Ha. rewrite Hb.
  - f_equal. apply utf8Encode_ascii.
    apply Forall_app in Ha as [Hi Hk].
    apply Forall_app. split; [done|]. constructor; [reflexivity | done].
  - eapply Forall_impl; [exact Ha|]. cbv beta. intros c Hc'. lia.
Qed.

Lemma forwardSms_authorization_witness :
  exists o k,
    smsTestHandler smsWorld (ForwardRequest (lit "GET") (lit "/api/sms/test") tt)
    = Call o k
    /\ exists payload,
         header "Authorization" (forwardHeaders o)
         = Some (lit "Basic " ++ payload)
         /\ base64Decode payload = Some (lit "id:key").
Proof.
  eexists _, _. split; [reflexivity|].
  destruct (forwardSms_authorization smsWorld
              (ForwardRequest (lit "GET") (lit "/api/sms/test") tt)
              (Some (lit "/v1/Balance")) _ _ eq_refl)
    as (id & key & payload & Hc & Hh & _ & _ & Hascii).
  vm_compute in Hc. injection Hc as <- <-.
  exists payload. split; [exact Hh|].
  apply Hascii. repeat constructor.
Defined.

(** * The batch of POST /api/sms/send *)

Lemma trimStart_head (s : jsstring) c t :
  trimStart s = c :: t -> isWhiteSpace c = false.
Proof.
  induction s as [|a s IH]; [done|]. cbn [trimStart].
  destruct (isWhiteSpace a) eqn:E; [done|]. by intros [= <- <-].
Qed.

Lemma trimStart_suffix (s : jsstring) : exists p, s = p ++ trimStart s.
Proof.
  induction s as [|a s [p IH]]; [by exists []|]. cbn [trimStart].
  destruct (isWhiteSpace a).
  - exists (a :: p). by rewrite IH at 1.
  - by exists [].
Qed.

Lemma trim_last (s : jsstring) t c :
  trim s = t ++ [c] -> isWhiteSpace c = false.
Proof.
  unfold trim, trimEnd. intros H. apply (f_equal (@rev N)) in H.
  rewrite rev_involutive, rev_app_distr in H. cbn [rev app] in H.
  by apply trimStart_head in H.
Qed.

Lemma trim_head (s : jsstring) c t :
  trim s = c :: t -> isWhiteSpace c = false.
Proof.
  unfold trim, trimEnd. intros H. apply (f_equal (@rev N)) in H.
  rewrite rev_involutive in H.
  destruct (trimStart_suffix (rev (trimStart s))) as [p Hp].
  rewrite H in Hp. apply (f_equal (@rev N)) in Hp.
  rewrite rev_involutive, rev_app_distr, rev_involutive in Hp.
  cbn [app] in Hp. by apply trimStart_head in Hp.
Qed.

Lemma filter_length_le {A} (P : A -> Prop) `{!forall x, Decision (P x)}
    (l : list A) :
  (length (filter P l) <= length l)%nat.
Proof.
  induction l as [|a l IH]; [done|]. rewrite filter_cons.
  destruct (decide (P a)); simpl; lia.
Qed.

(** The batch that is forwarded for the message [msg], the options [opts]
    and the recipients [l]. *)
Lemma sms_batch_forwarded (w : world) (msg : jsstring) (opts : sms_options)
    (l : list recipient) o k :
  let batch :=
    filter (fun m => destination m <> []) (map (smsMessageFor msg opts) l) in
  match batch with
  | [] =>
      Respond (json_error 400
        (<["success" := JBool false]>
         (<["error" := JString (lit "No valid recipient numbers found")]> ∅)))
  | _ =>
      forwardSms w (SmsPayload batch (testMode opts)
                      (jsOr (senderId opts) None)) (lit "/BulkMessages")
  end = Call o k ->
  smsUrl o = lit "https://rest.smsportal.com/BulkMessages"
  /\ smsMethod o = lit "POST"
  /\ messages (smsBody o) <> []
  /\ (length (messages (smsBody o)) <= length l)%nat
  /\ payloadTestMode (smsBody o) = testMode opts
  /\ payloadSenderId (smsBody o) = jsOr (senderId opts) None
  /\ Forall (fun m =>
               smsContent m = trim msg
               /\ destination m <> []
               /\ Forall (fun c => isDigit c = true) (destination m)
               /\ startsWith (lit "0") (destination m) = false
               /\ sendTime m = jsOr (scheduledFor opts) None
               /\ smsReference m = jsOr (reference opts) None)
            (messages (smsBody o)).
Proof.
  intros batch. destruct batch as [|m0 batch'] eqn:Eb; [done|].
  unfold forwardSms. destruct (getSmsCredentials w) as [[id|] [key|]]; try done.
  intros [= <- <-].
  cbn [smsUrl smsMethod smsBody messages payloadTestMode payloadSenderId].
  split; [reflexivity|]. split; [done|]. split; [done|]. split.
  { rewrite <- Eb. subst batch.
    etransitivity; [apply filter_length_le|]. by rewrite length_map. }
  split; [done|]. split; [done|].
  rewrite <- Eb. subst batch. apply List.Forall_forall. intros m Hm.
  rewrite <- list_elem_of_In in Hm.
  apply list_elem_of_filter in Hm as [Hd Hm].
  rewrite list_elem_of_In in Hm. apply in_map_iff in Hm as (r' & <- & _).
  cbn [smsMessageFor smsContent destination sendTime smsReference] in *.
  split; [done|]. split; [done|].
  destruct (formatSmsPortalNumber_normalise (rawNumber r')) as (d & Hdig & ->).
  split; [by apply normalise_digits|]. split; [apply normalise_no_leading_zero|].
  done.
Qed.

(** X6.  When [POST /api/sms/send] forwards a batch, the batch is not empty
    and is no longer than the list of recipients; it goes by [POST] to the
    bulk-send URL of the vendor; every message has the same content, the
    trimmed request message, which is not empty and neither begins nor ends
    with white space; every destination is a non-empty string of digits that
    does not start with 0; and every message carries the schedule time and
    the reference of the options when these are non-empty.  The test
    mode and the sender of the batch are those of the options. *)
Theorem sms_send_batch (w : world) (req : sms_request) o k :
  smsSendHandler w req = Call o k ->
  let opts := match options req with Options x => x | _ => noOptions end in
  exists msg l,
    message req = Some msg /\ recipients req = Recipients l
    /\ smsUrl o = lit "https://rest.smsportal.com/BulkMessages"
    /\ smsMethod o = lit "POST"
    /\ messages (smsBody o) <> []
    /\ (length (messages (smsBody o)) <= length l)%nat
    /\ payloadTestMode (smsBody o) = testMode opts
    /\ payloadSenderId (smsBody o) = jsOr (senderId opts) None
    /\ trim msg <> []
    /\ (forall c t, trim msg = c :: t -> isWhiteSpace c = false)
    /\ (forall t c, trim msg = t ++ [c] -> isWhiteSpace c = false)
    /\ Forall (fun m =>
                 smsContent m = trim msg
                 /\ destination m <> []
                 /\ Forall (fun c => isDigit c = true) (destination m)
                 /\ startsWith (lit "0") (destination m) = false
                 /\ sendTime m = jsOr (scheduledFor opts) None
                 /\ smsReference m = jsOr (reference opts) None)
              (messages (smsBody o)).
Proof.
  cbv zeta. unfold smsSendHandler.
  destruct (jsOr (message req) None) as [msg|] eqn:Em; [|done].
  assert (Hmsg : message req = Some msg).
  { unfold jsOr in Em. by destruct (truthy (message req)). }
  destruct (trim msg) as [|c0 t0] eqn:Et; [done|].
  destruct (recipients req) as [| |l] eqn:Er; try done.
  destruct l as [|r l]; [done|].
  intros H.
  assert (Hb : exists opts,
             opts = match options req with Options x => x | _ => noOptions end
             /\ let batch :=
                  filter (fun m => destination m <> [])
                    (map (smsMessageFor msg opts) (r :: l)) in
                match batch with
                | [] =>
                    Respond (json_error 400
                      (<["success" := JBool false]>
                       (<["error" :=
                            JString (lit "No valid recipient numbers found")]> ∅)))
                | _ =>
                    forwardSms w (SmsPayload batch (testMode opts)
                                    (jsOr (senderId opts) None))
                      (lit "/BulkMessages")
                end = Call o k).
  { destruct (options req) as [| |opt]; [|done|];
      (eexists; split; [reflexivity | exact H]). }
  destruct Hb as (opts & <- & Hb). clear H.
  apply sms_batch_forwarded in Hb
    as (Hu & Hme & Hne & Hlen & Htm & Hsid & Hall).
  exists msg, (r :: l).
  split; [done|]. split; [done|]. split; [done|]. split; [done|].
  split; [done|]. split; [done|]. split; [done|]. split; [done|].
  split; [by rewrite Et|].
  split; [intros c t; apply trim_head|].
  split; [intros t c; apply trim_last|]. done.
Qed.

Lemma sms_send_batch_witness :
  exists o k,
    smsSendHandler smsWorld sampleSms = Call o k
    /\ Forall (fun m => Forall (fun c => isDigit c = true) (destination m)
                        /\ startsWith (lit "0") (destination m) = false)
         (messages (smsBody o)).
Proof.
  eexists _, _. split; [reflexivity|].
  destruct (sms_send_batch smsWorld sampleSms _ _ eq_refl)
    as (msg & l & _ & _ & _ & _ & _ & _ & _ & _ & _ & _ & _ & Hall).
  eapply List.Forall_impl; [|exact Hall].
  cbv beta. intros m (_ & _ & Hd & Hz & _). by split.
Defined.

(** * GET /health and the secrets file *)

(** X8.  [GET /health] tells of the environment and the secrets file only
    the port, whether a secrets file was loaded and whether each of three
    environment variables is set to a non-empty value: two configurations
    that agree on [PORT] and on these flags give the same answer at the same
    time in the same working directory, whatever the values of the three
    variables and the content of the secrets file are.  The answer has
    status 200 and [ok: true]. *)
Theorem health_reveals_presence_only (cwd : jsstring) (w1 w2 : world) :
  isoNow w1 = isoNow w2 ->
  jsOr (env w1 !! "PORT") None = jsOr (env w2 !! "PORT") None ->
  (is_Some (localSecrets w1) <-> is_Some (localSecrets w2)) ->
  (forall name,
     In name ["MIE_PASSWORD"; "MIE_USERNAME"; "SMS_CLIENT_SECRET"] ->
     truthy (env w1 !! name) = truthy (env w2 !! name)) ->
  healthHandler cwd w1 = healthHandler cwd w2
  /\ fst (healthHandler cwd w1) = 200
  /\ healthOk (snd (healthHandler cwd w1)) = true.
Proof.
  intros Ht Hport Hs He. split; [|done]. unfold healthHandler, PORT.
  rewrite Ht, Hport, !He by (cbn [In]; auto).
  destruct (localSecrets w1), (localSecrets w2); try done.
  - destruct Hs as [Hs _]. by destruct Hs.
  - destruct Hs as [_ Hs]. by destruct Hs.
Qed.

Lemma health_reveals_presence_only_witness :
  healthHandler (lit "/srv")
    (World (<["MIE_PASSWORD" := lit "one"]> (<["PORT" := lit "8080"]> ∅))
       (Some (<["SMS_CLIENT_ID" := lit "a"]> ∅)) 1 (lit "2024-01-01T00:00:00.000Z"))
  = healthHandler (lit "/srv")
      (World (<["MIE_PASSWORD" := lit "another"]>
              (<["RENDER" := lit "1"]> (<["PORT" := lit "8080"]> ∅)))
         (Some ∅) 2 (lit "2024-01-01T00:00:00.000Z")).
Proof.
  apply health_reveals_presence_only.
  - reflexivity.
  - vm_compute. reflexivity.
  - split; intros _; by eexists.
  - intros name [<-|[<-|[<-|[]]]]; vm_compute; reflexivity.
Defined.

Section SecretsFile.

Variable jsonParse : jsstring -> option json_document.


End SecretsFile.


(** * Reading a well-formed vendor reply *)

Lemma extractTagText_tagTextSpec (newRegExp : regexp_constructor)
    (x name : jsstring) :
  newRegExp name = inr (search (tagPattern name)) ->
  extractTagText newRegExp x name = Returned (tagTextSpec x name).
Proof.
  intros Hre. unfold extractTagText, tagTextSpec. rewrite Hre.
  rewrite (search_firstAt _ (tagAt name)) by apply matchAt_tagPattern.
  destruct x as [|c x]; [|done].
  cbn [firstAt]. unfold tagAt. by destruct name.
Qed.

Lemma extractRequestKey_requestKeySpec (text : option jsstring) :
  extractRequestKey text = requestKeySpec text.
Proof.
  unfold extractRequestKey, requestKeySpec.
  destruct text as [[|c t]|]; try done.
  unfold patterns. cbn [firstMatch].
  rewrite (search_firstAt _ elementAt) by apply matchAt_keyElement.
  rewrite (search_firstAt _ attributeAt) by apply matchAt_keyAttribute.
  rewrite (search_firstAt _ colonAt) by apply matchAt_keyColon.
  pose proof (firstAt_nonEmpty _ (c :: t) elementAt_nonEmpty) as H1.
  pose proof (firstAt_nonEmpty _ (c :: t) attributeAt_nonEmpty) as H2.
  pose proof (firstAt_nonEmpty _ (c :: t) colonAt_nonEmpty) as H3.
  destruct (firstAt elementAt (c :: t)) as [[|a v]|]; [done|done|].
  destruct (firstAt attributeAt (c :: t)) as [[|a v]|]; [done|done|].
  by destruct (firstAt colonAt (c :: t)) as [[|a v]|].
Qed.

Lemma eqCI_refl a : eqCI a a = true.
Proof. apply N.eqb_refl. Qed.

Lemma stripPrefixCI_app p x : stripPrefixCI p (p ++ x) = Some x.
Proof.
  induction p as [|a p IH]; [by destruct x|].
  cbn [app stripPrefixCI]. by rewrite eqCI_refl.
Qed.

Lemma eqCI_word_lt c : isWordChar c = true -> eqCI c 60 = false.
Proof.
  unfold isWordChar, eqCI, canon, inRange. intros H.
  rewrite ?orb_true_iff, ?andb_true_iff, ?N.leb_le, ?N.eqb_eq in H.
  change (if (97 <=? 60) && (60 <=? 122) then 60 - 32 else 60) with 60.
  apply N.eqb_neq.
  destruct ((97 <=? c) && (c <=? 122)) eqn:E.
  - apply andb_true_iff in E as [E1 E2]. apply N.leb_le in E1, E2. lia.
  - apply andb_false_iff in E. rewrite !N.leb_gt in E. lia.
Qed.

(** A pattern none of whose characters matches [<] cannot run over a [<]:
    where it matches a text continued by [<], it matches the text. *)
Lemma stripPrefixCI_overlap pat b rest x :
  Forall (fun a => eqCI a 60 = false) pat ->
  stripPrefixCI pat (b ++ 60 :: rest) = Some x ->
  exists y, stripPrefixCI pat b = Some y.
Proof.
  intros Hpat. revert b. induction Hpat as [|a pat Ha _ IH]; intros b H.
  - exists b. by destruct b.
  - destruct b as [|c b]; cbn [app stripPrefixCI] in *.
    + by rewrite Ha in H.
    + destruct (eqCI a c); [by apply IH | done].
Qed.

Lemma beforeFirstCI_eq pat s :
  beforeFirstCI pat s
  = match stripPrefixCI pat s with
    | Some _ => Some []
    | None =>
        match s with
        | [] => None
        | c :: t =>
            match beforeFirstCI pat t with
            | Some a => Some (c :: a)
            | None => None
            end
        end
    end.
Proof. by destruct s. Qed.

Lemma beforeFirstCI_None pat s :
  beforeFirstCI pat s = None ->
  forall a b, s = a ++ b -> stripPrefixCI pat b = None.
Proof.
  induction s as [|c s IH]; intros H a b E; rewrite beforeFirstCI_eq in H.
  - apply eq_sym, app_eq_nil in E as [-> ->].
    by destruct (stripPrefixCI pat []).
  - destruct (stripPrefixCI pat (c :: s)) eqn:E0; [done|].
    destruct a as [|c' a]; cbn [app] in E.
    + by subst b.
    + injection E as <- E. apply (IH ltac:(by destruct (beforeFirstCI pat s)) a b E).
Qed.

(** A text without an occurrence of a pattern that begins with [<] and has
    no other [<], continued by [<]: the pattern is at none of its
    positions. *)
Lemma no_occurrence_boundary tail inner rest :
  Forall (fun a => eqCI a 60 = false) tail ->
  beforeFirstCI (60 :: tail) inner = None ->
  forall a b, inner = a ++ b -> b <> [] ->
    stripPrefixCI (60 :: tail) (b ++ 60 :: rest) = None.
Proof.
  intros Htail Hno a b E Hb. destruct b as [|c b]; [done|].
  pose proof (beforeFirstCI_None _ _ Hno a (c :: b) E) as Hc.
  cbn [app stripPrefixCI] in *. destruct (eqCI 60 c); [|done].
  destruct (stripPrefixCI tail (b ++ 60 :: rest)) eqn:E1; [|done].
  apply (stripPrefixCI_overlap _ _ _ _ Htail) in E1 as [y Hy]. congruence.
Qed.

Lemma firstAt_skip f pre s :
  (forall a b, pre = a ++ b -> b <> [] -> f (b ++ s) = None) ->
  firstAt f (pre ++ s) = firstAt f s.
Proof.
  induction pre as [|c pre IH]; intros H; [done|].
  pose proof (H [] (c :: pre) eq_refl ltac:(done)) as H0.
  cbn [app firstAt] in *. rewrite H0.
  apply IH. intros a b -> Hb. by apply (H (c :: a) b).
Qed.

Lemma beforeFirstCI_found pat inner post :
  (forall a b, inner = a ++ b -> b <> [] ->
     stripPrefixCI pat (b ++ pat ++ post) = None) ->
  beforeFirstCI pat (inner ++ pat ++ post) = Some inner.
Proof.
  induction inner as [|c inner IH]; intros H; rewrite beforeFirstCI_eq.
  - cbn [app]. by rewrite stripPrefixCI_app.
  - pose proof (H [] (c :: inner) eq_refl ltac:(done)) as H0.
    cbn [app] in *. rewrite H0.
    rewrite IH; [done|]. intros a b -> Hb. by apply (H (c :: a) b).
Qed.

Lemma afterFirst_found ch attrs rest :
  Forall (fun c => c <> ch) attrs ->
  afterFirst ch (attrs ++ ch :: rest) = Some rest.
Proof.
  induction 1 as [|c attrs Hc _ IH]; cbn [app afterFirst].
  - by rewrite N.eqb_refl.
  - apply not_eq_sym, N.eqb_neq in Hc. by rewrite Hc.
Qed.

Lemma takeWhile_isNot ch key rest :
  Forall (fun c => c <> ch) key ->
  takeWhile (isNot ch) (key ++ ch :: rest) = key.
Proof.
  induction 1 as [|c key Hc _ IH]; cbn [app takeWhile]; unfold isNot at 1.
  - by rewrite N.eqb_refl.
  - apply not_eq_sym, N.eqb_neq in Hc. rewrite Hc. cbn [negb]. by rewrite IH.
Qed.

Lemma dropWhile_isNot ch key rest :
  Forall (fun c => c <> ch) key ->
  dropWhile (isNot ch) (key ++ ch :: rest) = ch :: rest.
Proof.
  induction 1 as [|c key Hc _ IH]; cbn [app dropWhile]; unfold isNot at 1.
  - by rewrite N.eqb_refl.
  - apply not_eq_sym, N.eqb_neq in Hc. by rewrite Hc.
Qed.

Lemma tagAt_found tag attrs inner post :
  Forall (fun c => isWordChar c = true) tag ->
  Forall (fun c => c <> 62) attrs ->
  beforeFirstCI (lit "</" ++ tag ++ lit ">") inner = None ->
  tagAt tag (lit "<" ++ tag ++ attrs ++ lit ">" ++ inner
             ++ lit "</" ++ tag ++ lit ">" ++ post)
  = Some inner.
Proof.
  intros Htag Hattrs Hinner. unfold tagAt.
  rewrite (app_assoc (lit "<") tag), stripPrefixCI_app.
  unfold mbind, option_bind.
  change (lit ">" ++ inner ++ lit "</" ++ tag ++ lit ">" ++ post)
    with (62 :: inner ++ lit "</" ++ tag ++ lit ">" ++ post).
  rewrite (afterFirst_found 62 attrs _ Hattrs).
  replace (inner ++ lit "</" ++ tag ++ lit ">" ++ post)
    with (inner ++ (lit "</" ++ tag ++ lit ">") ++ post)
    by (by rewrite <- !app_assoc).
  apply beforeFirstCI_found.
  change (lit "</" ++ tag ++ lit ">") with (60 :: 47 :: tag ++ [62]) in *.
  intros a b E Hb.
  apply (no_occurrence_boundary (47 :: tag ++ [62]) inner _) with (a := a);
    try done.
  constructor; [reflexivity|]. apply Forall_app. split.
  - eapply Forall_impl; [exact Htag|]. apply eqCI_word_lt.
  - by repeat constructor.
Qed.

Lemma tagAt_absent tag pre rest :
  Forall (fun c => isWordChar c = true) tag ->
  beforeFirstCI (lit "<" ++ tag) pre = None ->
  forall a b, pre = a ++ b -> b <> [] ->
    tagAt tag (b ++ lit "<" ++ rest) = None.
Proof.
  intros Htag Hpre a b E Hb. unfold tagAt.
  change (lit "<" ++ tag) with (60 :: tag) in *.
  change (lit "<" ++ rest) with (60 :: rest).
  rewrite (no_occurrence_boundary tag pre rest) with (a := a); try done.
  eapply Forall_impl; [exact Htag|]. apply eqCI_word_lt.
Qed.

Lemma tagTextSpec_element (tag pre attrs inner post : jsstring) :
  Forall (fun c => isWordChar c = true) tag ->
  beforeFirstCI (lit "<" ++ tag) pre = None ->
  Forall (fun c => c <> 62) attrs ->
  beforeFirstCI (lit "</" ++ tag ++ lit ">") inner = None ->
  tagTextSpec
    (pre ++ lit "<" ++ tag ++ attrs ++ lit ">" ++ inner
     ++ lit "</" ++ tag ++ lit ">" ++ post) tag
  = Some inner.
Proof.
  intros Htag Hpre Hattrs Hinner.
  unfold tagTextSpec. rewrite firstAt_skip.
  - assert (H := tagAt_found tag attrs inner post Htag Hattrs Hinner).
    destruct (lit "<" ++ tag ++ attrs ++ lit ">" ++ inner
              ++ lit "</" ++ tag ++ lit ">" ++ post) eqn:E; [done|].
    cbn [firstAt]. by rewrite H.
  - intros a b E Hb. by apply (tagAt_absent tag pre _ Htag Hpre a b).
Qed.

(** X10.  Stage one on a well-formed reply.  For a tag name of word
    characters, and a text in which the element [<tag attrs>inner</tag>]
    comes after a part without [<tag], where [attrs] is any text without
    [>] and [inner] any text without the end tag (letters compared without
    regard to case), [extractTagText] returns exactly [inner], whatever
    follows the element. *)
Theorem extractTagText_element (newRegExp : regexp_constructor)
    (tag pre attrs inner post : jsstring) :
  Forall (fun c => isWordChar c = true) tag ->
  newRegExp tag = inr (search (tagPattern tag)) ->
  beforeFirstCI (lit "<" ++ tag) pre = None ->
  Forall (fun c => c <> 62) attrs ->
  beforeFirstCI (lit "</" ++ tag ++ lit ">") inner = None ->
  extractTagText newRegExp
    (pre ++ lit "<" ++ tag ++ attrs ++ lit ">" ++ inner
     ++ lit "</" ++ tag ++ lit ">" ++ post) tag
  = Returned (Some inner).
Proof.
  intros Htag Hre Hpre Hattrs Hinner.
  rewrite (extractTagText_tagTextSpec _ _ _ Hre). f_equal.
  by apply tagTextSpec_element.
Qed.

Lemma extractTagText_element_witness :
  extractTagText wordRegExp
    (lit "<s:Body><ksoPingResult xmlns='k'>a<b/>c</ksoPingResult></s:Body>")
    (lit "ksoPingResult")
  = Returned (Some (lit "a<b/>c")).
Proof.
  apply (extractTagText_element wordRegExp (lit "ksoPingResult")
           (lit "<s:Body>") (lit " xmlns='k'") (lit "a<b/>c")
           (lit "</s:Body>")).
  - repeat constructor.
  - reflexivity.
  - vm_compute. reflexivity.
  - repeat constructor; vm_compute; discriminate.
  - vm_compute. reflexivity.
Defined.

Lemma elementAt_found key post :
  key <> [] -> Forall (fun c => c <> 60) key ->
  elementAt (lit "<RequestKey>" ++ key ++ lit "</RequestKey>" ++ post)
  = Some key.
Proof.
  intros Hne Hkey. unfold elementAt. rewrite stripPrefixCI_app.
  unfold mbind, option_bind.
  change (lit "</RequestKey>" ++ post) with (60 :: lit "/RequestKey>" ++ post).
  rewrite (takeWhile_isNot 60 key _ Hkey), (dropWhile_isNot 60 key _ Hkey).
  change (60 :: lit "/RequestKey>" ++ post) with (lit "</RequestKey>" ++ post).
  rewrite stripPrefixCI_app. by destruct key.
Qed.

Lemma elementAt_absent pre rest :
  beforeFirstCI (lit "<RequestKey>") pre = None ->
  forall a b, pre = a ++ b -> b <> [] ->
    elementAt (b ++ lit "<" ++ rest) = None.
Proof.
  intros Hpre a b E Hb. unfold elementAt.
  change (lit "<RequestKey>") with (60 :: lit "RequestKey>") in *.
  change (lit "<" ++ rest) with (60 :: rest).
  rewrite (no_occurrence_boundary (lit "RequestKey>") pre rest) with (a := a);
    try done.
  by repeat constructor.
Qed.

Lemma requestKeySpec_element (pre key post : jsstring) :
  beforeFirstCI (lit "<RequestKey>") pre = None ->
  key <> [] ->
  Forall (fun c => c <> 60) key ->
  requestKeySpec
    (Some (pre ++ lit "<RequestKey>" ++ key ++ lit "</RequestKey>" ++ post))
  = Some (trim key).
Proof.
  intros Hpre Hne Hkey. unfold requestKeySpec.
  destruct (pre ++ lit "<RequestKey>" ++ key ++ lit "</RequestKey>" ++ post)
    as [|c t] eqn:E.
  { apply app_eq_nil in E as [_ E]. discriminate E. }
  rewrite <- E. rewrite firstAt_skip.
  - pose proof (elementAt_found key post Hne Hkey) as H.
    change (lit "<RequestKey>" ++ key ++ lit "</RequestKey>" ++ post)
      with (60 :: lit "RequestKey>" ++ key ++ lit "</RequestKey>" ++ post) in *.
    cbn [firstAt]. by rewrite H.
  - intros a b Ea Hb.
    change (lit "<RequestKey>" ++ key ++ lit "</RequestKey>" ++ post)
      with (lit "<" ++ lit "RequestKey>" ++ key ++ lit "</RequestKey>" ++ post).
    by apply (elementAt_absent pre _ Hpre a b).
Qed.

(** X11.  Stage two on a well-formed result.  When the element
    [<RequestKey>key</RequestKey>], with a non-empty [key] without [<], is
    the first place of the text where [<RequestKey>] occurs,
    [extractRequestKey] returns the trimmed [key]: the element form decides,
    also when an attribute form or a colon form with another key stands
    before the element. *)
Theorem extractRequestKey_element (pre key post : jsstring) :
  beforeFirstCI (lit "<RequestKey>") pre = None ->
  key <> [] ->
  Forall (fun c => c <> 60) key ->
  extractRequestKey
    (Some (pre ++ lit "<RequestKey>" ++ key ++ lit "</RequestKey>" ++ post))
  = Some (trim key).
Proof.
  intros Hpre Hne Hkey. rewrite extractRequestKey_requestKeySpec.
  by apply requestKeySpec_element.
Qed.

Lemma extractRequestKey_element_witness :
  extractRequestKey
    (Some (lit "RequestKey: OLD <RequestKey> K-1 </RequestKey><RequestKey>K2</RequestKey>"))
  = Some (lit "K-1").
Proof.
  apply (extractRequestKey_element (lit "RequestKey: OLD ") (lit " K-1 ")
           (lit "<RequestKey>K2</RequestKey>")).
  - vm_compute. reflexivity.
  - discriminate.
  - repeat constructor; vm_compute; discriminate.
Defined.

Section MieReplies.

Variable toLowerCase toUpperCase : jsstring -> jsstring.
Variable newRegExp : regexp_constructor.


End MieReplies.


(** * The answers of POST /api/mie *)

Section MieAnswers.

Variable toLowerCase toUpperCase : jsstring -> jsstring.
Variable newRegExp : regexp_constructor.

Abbreviation mie := (mieHandler toLowerCase toUpperCase newRegExp).



(** X14.  The answer after the vendor call is a function of the method, the
    SOAP URL and the vendor's result alone: two requests with the same
    method and URL get the same answer for the same vendor result, whatever
    their credentials, keys and payload are and whatever the server's
    configuration and clock are.  Nothing of these is echoed to the
    client. *)
Theorem mie_answer_independent (w1 w2 : world) (r1 r2 : mie_request)
    o1 k1 o2 k2 :
  mie w1 r1 = Call o1 k1 ->
  mie w2 r2 = Call o2 k2 ->
  method r1 = method r2 ->
  soapUrl r1 = soapUrl r2 ->
  fetchUrl o1 = fetchUrl o2
  /\ fetchMethod o1 = fetchMethod o2
  /\ fetchHeaders o1 = fetchHeaders o2
  /\ forall result, k1 result = k2 result.
Proof.
  intros H1 H2 Hm Hu.
  apply handler_call in H1
    as (m1 & u1 & p1 & a1 & Hm1 & _ & Hu1 & _ & _ & _ & -> & ->).
  apply handler_call in H2
    as (m2 & u2 & p2 & a2 & Hm2 & _ & Hu2 & _ & _ & _ & -> & ->).
  assert (m2 = m1) as -> by congruence.
  assert (u2 = u1) as -> by congruence.
  done.
Qed.

(** X15.  With a logon override in the request the password that the server
    resolves is not sent: the same request makes the same outbound call
    under any two configurations in which a password resolves (at the same
    clock).  The password is required all the same: where none resolves the
    handler answers 400 without calling the vendor, override or not. *)
Theorem mie_logon_override (w1 w2 : world) (req : mie_request) :
  truthy (aLogonXmlOverride req) = true ->
  dateNow w1 = dateNow w2 ->
  isoNow w1 = isoNow w2 ->
  (forall o1 k1 o2 k2,
     mie w1 req = Call o1 k1 -> mie w2 req = Call o2 k2 -> o1 = o2)
  /\ (resolvePassword w1 (passwordFromBody req) = None ->
      exists a, mie w1 req = Respond a /\ status a = 400).
Proof.
  intros Hover Hd Hi. split.
  - intros o1 k1 o2 k2 H1 H2.
    apply handler_call in H1
      as (m1 & u1 & p1 & a1 & Hm1 & _ & Hu1 & _ & _ & Ha1 & -> & _).
    apply handler_call in H2
      as (m2 & u2 & p2 & a2 & Hm2 & _ & Hu2 & _ & _ & Ha2 & -> & _).
    assert (m2 = m1) as -> by congruence.
    assert (u2 = u1) as -> by congruence.
    assert (a2 = a1) as ->.
    { unfold aArgument in Ha1, Ha2. rewrite Hd, Hi in Ha1. congruence. }
    apply jsOr_truthy in Hover as (s & _ & _ & Hs).
    unfold aLogonXml. rewrite Hs. done.
  - intros Hp. unfold mieHandler. rewrite Hp.
    destruct (jsOr (method req) None); [|by eexists].
    destruct (jsOr (soapUrl req) None); by eexists.
Qed.

End MieAnswers.

Lemma mie_answer_independent_witness :
  exists o1 k1 o2 k2,
    mieHandler asciiLower asciiUpper wordRegExp sampleWorld
      (sampleRequest "ksoGetStatus") = Call o1 k1
    /\ mieHandler asciiLower asciiUpper wordRegExp deployedWorld bareRequest
       = Call o2 k2
    /\ fetchHeaders o1 = fetchHeaders o2
    /\ k1 (FetchResponse 503 (lit "down")) = k2 (FetchResponse 503 (lit "down")).
Proof.
  eexists _, _, _, _. split; [reflexivity|]. split; [reflexivity|].
  destruct (mie_answer_independent asciiLower asciiUpper wordRegExp
              sampleWorld deployedWorld (sampleRequest "ksoGetStatus")
              bareRequest _ _ _ _ eq_refl eq_refl eq_refl eq_refl)
    as (_ & _ & Hh & Hk).
  split; [exact Hh | apply Hk].
Defined.

Lemma mie_logon_override_witness :
  exists a,
    mieHandler asciiLower asciiUpper wordRegExp sampleWorld
      (MieRequest (Some (lit "ksoGetStatus")) (Some (lit "https://v/soap"))
         None None None None None PayloadAbsent (Some (lit "<xml/>")) None)
    = Respond a /\ status a = 400.
Proof.
  apply (mie_logon_override asciiLower asciiUpper wordRegExp
           sampleWorld sampleWorld
           (MieRequest (Some (lit "ksoGetStatus")) (Some (lit "https://v/soap"))
              None None None None None PayloadAbsent (Some (lit "<xml/>")) None)
           eq_refl eq_refl eq_refl).
  vm_compute. reflexivity.
Defined.

(** * The logon fragment takes its fields as they are *)

Section MieLogon.

Variable toLowerCase toUpperCase : jsstring -> jsstring.
Variable newRegExp : regexp_constructor.

(** X16.  The user name and the password are put into the logon fragment
    as they are, without escaping, so the fragment does not tell where the
    one ends and the other begins: a request with the user name
    [a</UserName><Password>b] and the password [c] and a request with the
    user name [a] and the password [b</UserName><Password>c] make the same
    outbound call and get the same answers. *)
Theorem mie_logon_verbatim (w : world) (req : mie_request)
    (a b c : jsstring) :
  c <> [] ->
  mieHandler toLowerCase toUpperCase newRegExp w
    (withCredentials req (a ++ USERNAME_TO_PASSWORD ++ b) c)
  = mieHandler toLowerCase toUpperCase newRegExp w
      (withCredentials req a (b ++ USERNAME_TO_PASSWORD ++ c)).
Proof.
  intros Hc. unfold mieHandler.
  cbn [method soapUrl passwordFromBody withCredentials].
  destruct (jsOr (method req) None) as [m|]; [|done].
  destruct (jsOr (soapUrl req) None) as [u|]; [|done].
  assert (H1 : resolvePassword w (Some c) = Some c).
  { unfold resolvePassword, jsOr. by destruct c. }
  assert (H2 : resolvePassword w (Some (b ++ USERNAME_TO_PASSWORD ++ c))
               = Some (b ++ USERNAME_TO_PASSWORD ++ c)).
  { unfold resolvePassword, jsOr.
    destruct (b ++ USERNAME_TO_PASSWORD ++ c) eqn:E; [|done].
    apply app_eq_nil in E as [_ E]. discriminate E. }
  rewrite H1, H2. f_equal. f_equal.
  unfold aLogonXml, aArgument.
  cbn [aLogonXmlOverride username source withCredentials nullish].
  destruct (jsOr (aLogonXmlOverride req) None); [done|].
  f_equal. f_equal. unfold USERNAME_TO_PASSWORD. by rewrite <- !app_assoc.
Qed.

End MieLogon.

Lemma mie_logon_verbatim_witness :
  mieHandler asciiLower asciiUpper wordRegExp sampleWorld
    (withCredentials bareRequest (lit "bob</UserName><Password>x") (lit "pw"))
  = mieHandler asciiLower asciiUpper wordRegExp sampleWorld
      (withCredentials bareRequest (lit "bob")
         (lit "x</UserName><Password>pw")).
Proof.
  apply (mie_logon_verbatim asciiLower asciiUpper wordRegExp sampleWorld
           bareRequest (lit "bob") (lit "x") (lit "pw")).
  discriminate.
Defined.
